(** * AKovalevich/infra: the RabbitMQ consumer engine and the ClickHouse container

    A shallow embedding of package [infrarabbit] ([Consumer.start],
    [Consumer.Close], [collectMetrics], [readAllErrors]) and of package
    [infraclickhouse] (clickhouse.go: [Container.Connect]).

    Go values are modelled as follows.
    - an [error] is a message; the interface value [nil] is [None];
    - a [map[string]T] is a [gmap string T];
    - [time.Time] and [time.Duration] are integers counting nanoseconds;
    - a goroutine is a sequence of atomic steps; the scheduler and the
      outside world (broker, pool, tickers, application) choose the next
      step, which is an [Event] of the transition function;
    - calls into collaborators that are not part of the repository are
      recorded, in program order, in a trace of [Action]s. *)

From stdpp Require Import base gmap strings list.
From Stdlib Require Import ZArith Lia.

Local Open Scope string_scope.
Local Open Scope Z_scope.

(** Go's [error] interface: only the message matters here. *)
Definition error := string.

(** [errors.Wrapf(err, msg)] of github.com/pkg/errors: [nil] stays [nil],
    anything else is annotated with the message. *)
Definition Wrapf (err : option error) (msg : string) : option error :=
  match err with
  | None => None
  | Some e => Some (msg ++ ": " ++ e)
  end.

(** How a Go call ends: it returns a value, or the goroutine is panicking. *)
Inductive Outcome (A : Type) : Type :=
| Returned (a : A)
| Panicked (v : string).
Arguments Returned {A} a.
Arguments Panicked {A} v.

(* ===================================================================== *)
(** * clickhouse.go                                                        *)
(* ===================================================================== *)

Module Clickhouse.

(** The fields of [ConnectionConfig] that [Connect] reads.  The type is
    declared in a file that is not part of the sources at hand. *)
Record ConnectionConfig := {
  MaxConnections : Z;
  MaxIdleConnections : Z;
  MaxConnectionIdleTime : Z;
  MaxConnectionLifetime : Z;
  Address : string
}.

(** A [*sql.DB] handle together with the limits set on it. *)
Record DB := {
  dsnOf : string;
  maxOpenConns : Z;
  maxIdleConns : Z;
  connMaxIdleTime : Z;
  connMaxLifetime : Z
}.

Definition SetMaxOpenConns (n : Z) (db : DB) : DB :=
  {| dsnOf := dsnOf db; maxOpenConns := n; maxIdleConns := maxIdleConns db;
     connMaxIdleTime := connMaxIdleTime db; connMaxLifetime := connMaxLifetime db |}.
Definition SetMaxIdleConns (n : Z) (db : DB) : DB :=
  {| dsnOf := dsnOf db; maxOpenConns := maxOpenConns db; maxIdleConns := n;
     connMaxIdleTime := connMaxIdleTime db; connMaxLifetime := connMaxLifetime db |}.
Definition SetConnMaxIdleTime (d : Z) (db : DB) : DB :=
  {| dsnOf := dsnOf db; maxOpenConns := maxOpenConns db; maxIdleConns := maxIdleConns db;
     connMaxIdleTime := d; connMaxLifetime := connMaxLifetime db |}.
Definition SetConnMaxLifetime (d : Z) (db : DB) : DB :=
  {| dsnOf := dsnOf db; maxOpenConns := maxOpenConns db; maxIdleConns := maxIdleConns db;
     connMaxIdleTime := connMaxIdleTime db; connMaxLifetime := d |}.

(** [*sqlstats.StatsCollector]: its descriptors carry the name as a
    constant label, so the name identifies it in a registry. *)
Record StatsCollector := {
  collectorName : string;
  collectorDB : DB
}.

Definition NewStatsCollector (name : string) (db : DB) : StatsCollector :=
  {| collectorName := name; collectorDB := db |}.

(** The process-wide prometheus registry, keyed by collector identity. *)
Definition prometheus_Unregister (c : StatsCollector)
    (reg : gmap string StatsCollector) : gmap string StatsCollector :=
  delete (collectorName c) reg.

(** [prometheus.MustRegister] panics when the identity is taken. *)
Definition prometheus_MustRegister (c : StatsCollector)
    (reg : gmap string StatsCollector) : Outcome (gmap string StatsCollector) :=
  match reg !! collectorName c with
  | Some _ => Panicked "duplicate metrics collector registration attempted"
  | None => Returned (<[collectorName c := c]> reg)
  end.

(** [type Container struct]; the lock only serialises the accesses. *)
Record Container := {
  cfg : gmap string ConnectionConfig;
  conns : gmap string DB;
  collectors : gmap string StatsCollector
}.

Definition NewContainer : Container :=
  {| cfg := ∅; conns := ∅; collectors := ∅ |}.

Definition Get (cont : Container) (name : string) : option DB :=
  conns cont !! name.

Definition GetCollector (cont : Container) (name : string) : option StatsCollector :=
  collectors cont !! name.

(** What [Connect] leaves behind: its result, the container and the
    registry. *)
Record Connected := {
  result : Outcome (option error);
  container : Container;
  registry : gmap string StatsCollector
}.

Section Connect.

(** The collaborators [Connect] calls: the DSN builder of the
    configuration, the driver's [sql.Open] and the handle's [Ping]. *)
Variable GetConnectionDSN : ConnectionConfig -> string.
Variable sql_Open : string -> string -> DB + error.
Variable Ping : DB -> option error.

Definition Connect (cont : Container) (reg : gmap string StatsCollector)
    (name : string) (c : ConnectionConfig) : Connected :=
  let dsn := GetConnectionDSN c in
  match sql_Open "clickhouse" dsn with
  | inr err =>
      {| result := Returned (Wrapf (Some err) "sql.Open");
         container := cont; registry := reg |}
  | inl conn =>
      match Ping conn with
      | Some err =>
          {| result := Returned (Wrapf (Some err) "conn.Ping");
             container := cont; registry := reg |}
      | None =>
          let conn := SetMaxOpenConns (MaxConnections c) conn in
          let conn := SetMaxIdleConns (MaxIdleConnections c) conn in
          let conn := SetConnMaxIdleTime (MaxConnectionIdleTime c) conn in
          let conn := SetConnMaxLifetime (MaxConnectionLifetime c) conn in
          let reg :=
            match GetCollector cont name with
            | Some collector => prometheus_Unregister collector reg
            | None => reg
            end in
          let collector := NewStatsCollector name conn in
          match prometheus_MustRegister collector reg with
          | Panicked v =>
              {| result := Panicked v; container := cont; registry := reg |}
          | Returned reg =>
              {| result := Returned None;
                 container :=
                   {| conns := <[name := conn]> (conns cont);
                      cfg := <[name := c]> (cfg cont);
                      collectors := <[name := collector]> (collectors cont) |};
                 registry := reg |}
          end
      end
  end.

(** [Connect] fails when the driver cannot open the handle or the ping
    that follows reports an error. *)
Definition connectFails (c : ConnectionConfig) : Prop :=
  match sql_Open "clickhouse" (GetConnectionDSN c) with
  | inr _ => True
  | inl conn => is_Some (Ping conn)
  end.

End Connect.

(** A driver that opens a handle for every DSN; the handle answers pings
    only for the DSN ["tcp://ok"]. *)
Definition acceptingOpen (driver dsn : string) : DB + error :=
  inl {| dsnOf := dsn; maxOpenConns := 0; maxIdleConns := 2;
         connMaxIdleTime := 0; connMaxLifetime := 0 |}.

Definition pingByDSN (db : DB) : option error :=
  if String.eqb (dsnOf db) "tcp://ok" then None else Some "dial tcp: connection refused".

Definition sampleConfig (addr : string) : ConnectionConfig :=
  {| MaxConnections := 10; MaxIdleConnections := 5;
     MaxConnectionIdleTime := 60; MaxConnectionLifetime := 600;
     Address := addr |}.

(** The limits of a handle are those of a configuration. *)
Definition limitsFrom (c : ConnectionConfig) (db : DB) : Prop :=
  maxOpenConns db = MaxConnections c /\
  maxIdleConns db = MaxIdleConnections c /\
  connMaxIdleTime db = MaxConnectionIdleTime c /\
  connMaxLifetime db = MaxConnectionLifetime c.

(** The three maps of the container describe the same connections, and
    the registry holds the collectors of this container and no other. *)
Definition aligned (cont : Container) (reg : gmap string StatsCollector) : Prop :=
  forall name,
    match conns cont !! name with
    | Some db =>
        (exists c, cfg cont !! name = Some c /\ limitsFrom c db) /\
        collectors cont !! name = Some (NewStatsCollector name db) /\
        reg !! name = Some (NewStatsCollector name db)
    | None =>
        cfg cont !! name = None /\ collectors cont !! name = None /\
        reg !! name = None
    end.

(** One call of [Connect] together with what the driver answers to it. *)
Record Attempt := {
  attemptName : string;
  attemptConfig : ConnectionConfig;
  opened : DB + error;
  pinged : option error
}.

Section ConnectMany.

Variable GetConnectionDSN : ConnectionConfig -> string.

Definition connectOnce (a : Attempt) (st : Connected) : Connected :=
  Connect GetConnectionDSN (fun _ _ => opened a) (fun _ => pinged a)
    (container st) (registry st) (attemptName a) (attemptConfig a).

(** Calls of [Connect] one after the other; a panic ends the program. *)
Fixpoint connectAll (attempts : list Attempt) (st : Connected) : Connected :=
  match attempts with
  | [] => st
  | a :: rest =>
      match result st with
      | Panicked _ => st
      | Returned _ => connectAll rest (connectOnce a st)
      end
  end.

End ConnectMany.

(** A program that has just built its container. *)
Definition started : Connected :=
  {| result := Returned None; container := NewContainer; registry := ∅ |}.

(** A handle as the driver opens it. *)
Definition rawHandle (dsn : string) : DB :=
  {| dsnOf := dsn; maxOpenConns := 0; maxIdleConns := 2;
     connMaxIdleTime := 0; connMaxLifetime := 0 |}.

End Clickhouse.

(* ===================================================================== *)
(** * Package infrarabbit: the consumer                                    *)
(* ===================================================================== *)

Module Rabbit.

(** ** Time *)

Definition Time := Z.

Definition second : Z := 1000000000.
Definition minute : Z := 60 * second.
Definition hour : Z := 60 * minute.

(** ** Constants (lines 14-24) *)

Definition defaultPrefetchCount : Z := 1.
Definition defaultVHost : string := "/".
Definition defaultUser : string := "guest".
Definition defaultPassword : string := "guest".

Definition connCloseChanSize : Z := 8096.
Definition metricsIntervalCheckDefault : Z := hour * 24 * 365.
Definition heartbeatIntervalCheck : Z := second.
Definition heartbeatReconnectionInterval : Z := 5 * minute.

(** ** Configuration

    [ConsumerConfig] and its metrics section are declared outside the
    sources at hand; these are the fields the consumer reads.  A metrics
    callback is application code: [Some v] says that it panics with [v]. *)

Definition MetricsCallback : Type := string -> string -> Z -> option string.

Record MetricsConfig := {
  QueueLength : option MetricsCallback;
  QueueDelay : option MetricsCallback;
  CheckInterval : Z
}.

Record ConsumerConfig := {
  Queue : string;
  Tag : string;
  QueuePriority : Z;
  PrefetchCount : Z;
  Metrics : option MetricsConfig
}.

(** Lines 42-45 of [start]. *)
Definition metricsInterval (c : ConsumerConfig) : Z :=
  match Metrics c with
  | Some m => if 0 <? CheckInterval m then CheckInterval m else metricsIntervalCheckDefault
  | None => metricsIntervalCheckDefault
  end.

(** ** Broker values *)

(** [amqp.Delivery]: the body and the timestamp the publisher stamped. *)
Record Delivery := {
  Body : string;
  Timestamp : Time
}.

(** The channels handed to [NotifyClose]: one per connection, one per
    broker channel. *)
Inductive NotifyChan :=
| ConnNotify (conn : nat)
| ChannelNotify (channel : nat).

(** [Message]: the envelope pushed to the application.  Its [callback] is
    the closure of lines 95-103; what tells two such closures apart is the
    [atomic.Bool] they captured, given here by its address. *)
Record Message := {
  msg : Delivery;
  host : string;
  queue : string;
  callback : nat
}.

(** ** What the code does to its collaborators, in program order *)

Inductive Action :=
| LogError (what : string) (err : option error)
| PoolGet (tag : string)
| PoolCreateConsumerChannel (conn : nat) (tag queue : string) (priority prefetch : Z)
| PoolCloseConnection (conn : nat)
| PoolCloseConsumerChannel (channel : option nat)
| Sleep (d : Z)
| NotifyClose (c : NotifyChan) (size : Z)
| GoReadAllErrors (c : NotifyChan)
| GoCollectMetrics (channel : option nat) (host queue : string)
| BrokerQueueDeclarePassive (queue : string)
| BrokerGet (queue : string) (autoAck : bool)
| BrokerReject (requeue : bool)
| ReportQueueLength (host queue : string) (n : Z)
| ReportQueueDelay (host queue : string) (n : Z).

(** ** A goroutine body: the actions performed and how it ended *)

Definition Task (A : Type) : Type := list Action * Outcome A.

Definition ret {A : Type} (a : A) : Task A := ([], Returned a).

Definition bind {A B : Type} (t : Task A) (k : A -> Task B) : Task B :=
  match t with
  | (acts, Returned a) => ((acts ++ fst (k a))%list, snd (k a))
  | (acts, Panicked v) => (acts, Panicked v)
  end.

Notation "x <- t ;; k" := (bind t (fun x => k))
  (at level 100, t at next level, right associativity).
Notation "t ;;; k" := (bind t (fun _ => k))
  (at level 100, right associativity).

(** A call to a collaborator: the action is recorded, the outcome is the
    collaborator's. *)
Definition call {A : Type} (a : Action) (r : Outcome A) : Task A := ([a], r).

(** A call to application code that returns nothing. *)
Definition invoke (a : Action) (r : option string) : Task unit :=
  call a (match r with None => Returned tt | Some v => Panicked v end).

(** [defer func() { if e := recover(); e != nil { handler } }()] *)
Definition deferRecover (handler : string -> Task unit) (body : Task unit) : Task unit :=
  match body with
  | (acts, Returned tt) => (acts, Returned tt)
  | (acts, Panicked v) => ((acts ++ fst (handler v))%list, snd (handler v))
  end.

(** A goroutine that ends panicking takes the process down. *)
Definition crashes {A : Type} (t : Task A) : bool :=
  match snd t with
  | Returned _ => false
  | Panicked _ => true
  end.

(** ** collectMetrics (lines 185-234) *)

(** The broker channel as [collectMetrics] sees it: the answers to the
    calls it makes. *)
Record AmqpChannel := {
  IsClosed : bool;
  QueueDeclarePassive : string -> Outcome (Z + error);
  Get : string -> bool -> Outcome ((Delivery * bool) + error);
  Reject : Delivery -> bool -> Outcome (option error)
}.

(** [time.Since(t)] read at [now]. *)
Definition Since (now t : Time) : Z := now - t.

(** [d.Seconds() >= 0]: the conversion to a float keeps the sign. *)
Definition secondsNonNegative (d : Z) : bool := 0 <=? d.

(** [int64(d.Seconds())]: the whole seconds, rounded towards zero.  The
    float rounding of very long durations is not modelled. *)
Definition wholeSeconds (d : Z) : Z := Z.quot d second.

(** Lines 199-233: the body, before the deferred function runs. *)
Definition collectMetricsBody (c : ConsumerConfig) (channel : option AmqpChannel)
    (h q : string) (now : Time) : Task unit :=
    match channel with
    | None => ret tt
    | Some chn =>
        if IsClosed chn then ret tt else
        match Metrics c with
        | None => ret tt
        | Some m =>
            declared <- call (BrokerQueueDeclarePassive q) (QueueDeclarePassive chn q) ;;
            match declared with
            | inr _ => ret tt
            | inl messages =>
                match QueueLength m with
                | Some f => invoke (ReportQueueLength h q messages) (f h q messages)
                | None => ret tt
                end ;;;
                match QueueDelay m with
                | None => ret tt
                | Some f =>
                    if messages =? 0 then invoke (ReportQueueDelay h q 0) (f h q 0)
                    else
                      got <- call (BrokerGet q false) (Get chn q false) ;;
                      match got with
                      | inl (m0, true) =>
                          let seconds := Since now (Timestamp m0) in
                          call (BrokerReject true) (Reject chn m0 true) ;;;
                          if secondsNonNegative seconds
                          then invoke (ReportQueueDelay h q (wholeSeconds seconds))
                                      (f h q (wholeSeconds seconds))
                          else ret tt
                      | _ => ret tt
                      end
                end
            end
        end
    end.

(** Lines 191-197. *)
Definition logRecovered (e : string) : Task unit :=
  call (LogError "unable to collect rabbit metrics" (Some e)) (Returned tt).

Definition collectMetrics (c : ConsumerConfig) (channel : option AmqpChannel)
    (h q : string) (now : Time) : Task unit :=
  deferRecover logRecovered (collectMetricsBody c channel h q now).

(** The values the queue-delay callback was called with, and whether
    anything was logged. *)
Definition delayReports (acts : list Action) : list (string * string * Z) :=
  flat_map (fun a => match a with
                     | ReportQueueDelay h q n => [(h, q, n)]
                     | _ => []
                     end) acts.

Definition isLog (a : Action) : bool :=
  match a with LogError _ _ => true | _ => false end.

(** The values the queue-length callback was called with. *)
Definition lengthReports (acts : list Action) : list (string * string * Z) :=
  flat_map (fun a => match a with
                     | ReportQueueLength h q n => [(h, q, n)]
                     | _ => []
                     end) acts.

(** The calls made on the broker channel, in order. *)
Definition isBrokerCall (a : Action) : bool :=
  match a with
  | BrokerQueueDeclarePassive _ | BrokerGet _ _ | BrokerReject _ => true
  | _ => false
  end.

Definition brokerCalls (acts : list Action) : list Action :=
  List.filter isBrokerCall acts.

(** What the queue-length callback, when configured, is called with. *)
Definition lengthCall (m : MetricsConfig) (h q : string) (n : Z) : option string :=
  match QueueLength m with
  | Some f => f h q n
  | None => None
  end.

(** ** readAllErrors (lines 236-241)

    [for range ch {}] over what the notifier still delivers: every value
    is read and dropped; the result is what is left unread. *)
Fixpoint readAllErrors (pending : list (option error)) : list (option error) :=
  match pending with
  | [] => []
  | _ :: rest => readAllErrors rest
  end.

(** ** The consumer engine: state

    The variables of one pass through [reconnectLoop] (lines 60-93). *)
Record Generation := {
  conn : nat;
  isNewConn : bool;
  connClose : option NotifyChan;       (* nil unless the connection is new *)
  channelClose : NotifyChan;
  lastTimeConnectionUsed : Time;
  isNeedRecreateChannel : nat          (* address of this pass's atomic.Bool *)
}.

Definition touch (now : Time) (g : Generation) : Generation :=
  {| conn := conn g; isNewConn := isNewConn g; connClose := connClose g;
     channelClose := channelClose g; lastTimeConnectionUsed := now;
     isNeedRecreateChannel := isNeedRecreateChannel g |}.

(** Where the goroutine running [start] stands. *)
Inductive Pc :=
| Reconnect                                  (* line 57, loop head *)
| Acquiring                                  (* lines 58-60 *)
| CreateChannel (c : nat) (isNew : bool)     (* lines 69-71, Get succeeded *)
| Serving (g : Generation)                   (* line 105, loop head *)
| Selecting (g : Generation)                 (* line 106, waiting in select *)
| Pushing (g : Generation) (m : Message)     (* line 153, the send *)
| WaitInProgress                             (* line 162 *)
| ReleaseChannel                             (* line 163 *)
| CloseOutput                                (* line 164 *)
| SignalDone                                 (* line 165 *)
| Exited.

(** Where a goroutine running [Close] stands, once it holds the mutex. *)
Inductive ClosePc :=
| Locked                                     (* line 176 *)
| AwaitDone                                  (* line 181 *)
| Returning (r : option error)               (* deferred Unlock pending *)
| Finished (r : option error).

(** The [Consumer] struct, the frame of [start], the application, and the
    history of the run.  The last block is not program state: it records
    what happened, for the statements below. *)
Record State := {
  (* type Consumer struct *)
  cfg : ConsumerConfig;
  ch : list Message;                 (* buffer of c.ch, oldest first *)
  chClosed : bool;
  mu : option nat;                   (* the caller of Close holding c.mu *)
  closed : bool;                     (* close(c.closed) has run *)
  isClosed : bool;
  itemsInProgress : Z;               (* the WaitGroup counter *)
  (* frame of start *)
  hostName : string;                 (* getHostPort(c.connCfg.Address) *)
  pc : Pc;
  channel : option nat;              (* var channel *amqp.Channel *)
  flags : list bool;                 (* the atomic.Bool of each pass *)
  (* application *)
  chCap : nat;                       (* cap(c.ch) *)
  held : list Message;               (* received, callback not yet invoked *)
  closers : gmap nat ClosePc;        (* calls of Close, by caller *)
  (* history *)
  trace : list Action;
  arrived : list Delivery;           (* read from the delivery stream *)
  pushed : list Message;             (* sent on c.ch *)
  taken : list Message;              (* received by the application *)
  lastDelivery : option Time         (* when the last delivery was read *)
}.

Definition setPc (p : Pc) (s : State) : State :=
  {| cfg := cfg s; ch := ch s; chClosed := chClosed s; mu := mu s; closed := closed s;
     isClosed := isClosed s; itemsInProgress := itemsInProgress s;
     hostName := hostName s; pc := p; channel := channel s; flags := flags s;
     chCap := chCap s; held := held s; closers := closers s;
     trace := trace s; arrived := arrived s; pushed := pushed s; taken := taken s;
     lastDelivery := lastDelivery s |}.

Definition log (acts : list Action) (s : State) : State :=
  {| cfg := cfg s; ch := ch s; chClosed := chClosed s; mu := mu s; closed := closed s;
     isClosed := isClosed s; itemsInProgress := itemsInProgress s;
     hostName := hostName s; pc := pc s; channel := channel s; flags := flags s;
     chCap := chCap s; held := held s; closers := closers s;
     trace := (trace s ++ acts)%list; arrived := arrived s; pushed := pushed s;
     taken := taken s; lastDelivery := lastDelivery s |}.

Definition setChannel (c : option nat) (s : State) : State :=
  {| cfg := cfg s; ch := ch s; chClosed := chClosed s; mu := mu s; closed := closed s;
     isClosed := isClosed s; itemsInProgress := itemsInProgress s;
     hostName := hostName s; pc := pc s; channel := c; flags := flags s;
     chCap := chCap s; held := held s; closers := closers s;
     trace := trace s; arrived := arrived s; pushed := pushed s; taken := taken s;
     lastDelivery := lastDelivery s |}.

Definition setFlags (f : list bool) (s : State) : State :=
  {| cfg := cfg s; ch := ch s; chClosed := chClosed s; mu := mu s; closed := closed s;
     isClosed := isClosed s; itemsInProgress := itemsInProgress s;
     hostName := hostName s; pc := pc s; channel := channel s; flags := f;
     chCap := chCap s; held := held s; closers := closers s;
     trace := trace s; arrived := arrived s; pushed := pushed s; taken := taken s;
     lastDelivery := lastDelivery s |}.

Definition setItemsInProgress (n : Z) (s : State) : State :=
  {| cfg := cfg s; ch := ch s; chClosed := chClosed s; mu := mu s; closed := closed s;
     isClosed := isClosed s; itemsInProgress := n;
     hostName := hostName s; pc := pc s; channel := channel s; flags := flags s;
     chCap := chCap s; held := held s; closers := closers s;
     trace := trace s; arrived := arrived s; pushed := pushed s; taken := taken s;
     lastDelivery := lastDelivery s |}.

(** The output queue and the application's hands change together with the
    history of sends and receives. *)
Definition setQueue (q : list Message) (h : list Message)
    (sent got : list Message) (s : State) : State :=
  {| cfg := cfg s; ch := q; chClosed := chClosed s; mu := mu s; closed := closed s;
     isClosed := isClosed s; itemsInProgress := itemsInProgress s;
     hostName := hostName s; pc := pc s; channel := channel s; flags := flags s;
     chCap := chCap s; held := h; closers := closers s;
     trace := trace s; arrived := arrived s; pushed := (pushed s ++ sent)%list;
     taken := (taken s ++ got)%list; lastDelivery := lastDelivery s |}.

Definition noteArrival (d : Delivery) (now : Time) (s : State) : State :=
  {| cfg := cfg s; ch := ch s; chClosed := chClosed s; mu := mu s; closed := closed s;
     isClosed := isClosed s; itemsInProgress := itemsInProgress s;
     hostName := hostName s; pc := pc s; channel := channel s; flags := flags s;
     chCap := chCap s; held := held s; closers := closers s;
     trace := trace s; arrived := (arrived s ++ [d])%list; pushed := pushed s;
     taken := taken s; lastDelivery := Some now |}.

Definition setMutex (m : option nat) (cs : gmap nat ClosePc) (s : State) : State :=
  {| cfg := cfg s; ch := ch s; chClosed := chClosed s; mu := m; closed := closed s;
     isClosed := isClosed s; itemsInProgress := itemsInProgress s;
     hostName := hostName s; pc := pc s; channel := channel s; flags := flags s;
     chCap := chCap s; held := held s; closers := cs;
     trace := trace s; arrived := arrived s; pushed := pushed s; taken := taken s;
     lastDelivery := lastDelivery s |}.

Definition setIsClosed (b : bool) (s : State) : State :=
  {| cfg := cfg s; ch := ch s; chClosed := chClosed s; mu := mu s; closed := closed s;
     isClosed := b; itemsInProgress := itemsInProgress s;
     hostName := hostName s; pc := pc s; channel := channel s; flags := flags s;
     chCap := chCap s; held := held s; closers := closers s;
     trace := trace s; arrived := arrived s; pushed := pushed s; taken := taken s;
     lastDelivery := lastDelivery s |}.

(** [close(c.ch)] and [close(c.closed)]. *)
Definition setClosedChans (out done : bool) (s : State) : State :=
  {| cfg := cfg s; ch := ch s; chClosed := out; mu := mu s; closed := done;
     isClosed := isClosed s; itemsInProgress := itemsInProgress s;
     hostName := hostName s; pc := pc s; channel := channel s; flags := flags s;
     chCap := chCap s; held := held s; closers := closers s;
     trace := trace s; arrived := arrived s; pushed := pushed s; taken := taken s;
     lastDelivery := lastDelivery s |}.

(** [isNeedRecreateChannel.Load()] and [.Store(true)] at an address. *)
Definition Load (a : nat) (s : State) : bool := default false (flags s !! a).
Definition Store (a : nat) (s : State) : State := setFlags (<[a := true]> (flags s)) s.

(** [c.itemsInProgress.Add(n)] *)
Definition Add (n : Z) (s : State) : State :=
  setItemsInProgress (itemsInProgress s + n) s.

(** ** The consumer engine: steps

    What the world decides: the answers of the pool, what the select of
    lines 106-159 receives, when a blocked operation goes through, and
    what the application does with the queue, the envelopes and [Close]. *)
Inductive Event :=
(* the goroutine running start *)
| EvGet (r : (nat * bool) + error)              (* line 60 *)
| EvCreateChannel (r : nat + error) (now : Time) (* lines 71-93 *)
| EvConnClose (closeErr : option error) (isOpen : bool)
| EvChannelClose (closeErr : option error) (isOpen : bool)
| EvHeartbeat (now : Time)
| EvMetrics
| EvDelivery (d : option Delivery) (now : Time)  (* None: the stream is closed *)
| EvSend                                         (* the send finds room in the buffer *)
| EvHandOff                                      (* the send meets a waiting receiver *)
| EvLoopEnter                                    (* a loop condition reads isClosed = false *)
| EvLoopExit                                     (* a loop condition reads isClosed = true *)
| EvEpilogue                                     (* the next of lines 162-165 *)
(* the application *)
| EvReceive                                      (* <-c.Consume() *)
| EvCallback (i : nat) (err : option error)      (* the callback of the i-th held envelope *)
| EvCloseLock (t : nat)                          (* line 173 *)
| EvCloseCheck (t : nat)                         (* lines 176-180 *)
| EvCloseAwait (t : nat)                         (* line 181 *)
| EvCloseReturn (t : nat).                       (* return, deferred Unlock *)

Definition isSome {A : Type} (o : option A) : bool :=
  match o with Some _ => true | None => false end.

(** [if closeErr != nil { infralog.Error(...) }] *)
Definition logIfError (what : string) (closeErr : option error) (s : State) : State :=
  match closeErr with
  | Some e => log [LogError what (Some e)] s
  | None => s
  end.

(** Line 132. *)
Definition isStale (now : Time) (g : Generation) : bool :=
  heartbeatReconnectionInterval <? Since now (lastTimeConnectionUsed g).

(** Lines 153-158. *)
Definition envelope (d : Delivery) (g : Generation) (s : State) : Message :=
  {| msg := d; host := hostName s; queue := Queue (cfg s);
     callback := isNeedRecreateChannel g |}.

(** One atomic step; [None] when the event cannot happen in this state
    (the operation blocks, or the goroutine is elsewhere).  A case of the
    select is one step, so the heartbeat case reads the flag once.  With
    an error the pool is taken to hand back a nil channel.  The
    application invokes the callback of an envelope it holds, once; a
    receive from the closed, empty queue yields no envelope and is left
    out. *)
Definition step (s : State) (e : Event) : option State :=
  match e, pc s with
  | EvLoopExit, Reconnect =>
      if isClosed s then Some (setPc WaitInProgress s) else None
  | EvLoopExit, Serving _ =>
      if isClosed s then Some (setPc Reconnect s) else None
  | EvLoopEnter, Reconnect =>
      if isClosed s then None else Some (setPc Acquiring s)
  | EvLoopEnter, Serving g =>
      if isClosed s then None else Some (setPc (Selecting g) s)
  | EvGet r, Acquiring =>
      let s := log [LogError "connectionsManager.Get" (Some "connectionsManager.Get");
                    PoolGet (Tag (cfg s))] s in
      match r with
      | inr err =>
          Some (setPc Reconnect
                 (log [LogError "connectionsManager.Get" (Some err); Sleep second] s))
      | inl (c, isNew) => Some (setPc (CreateChannel c isNew) s)
      end
  | EvCreateChannel r now, CreateChannel c isNew =>
      let s := log [LogError "connectionsManager.CreateConsumerChannel"
                      (Some "connectionsManager.CreateConsumerChannel");
                    PoolCreateConsumerChannel c (Tag (cfg s)) (Queue (cfg s))
                      (QueuePriority (cfg s)) (PrefetchCount (cfg s))] s in
      match r with
      | inr err =>
          Some (setPc Reconnect
                 (log [LogError "CreateConsumerChannel" (Some err);
                       PoolCloseConnection c; Sleep second]
                   (setChannel None s)))
      | inl chn =>
          let g := {| conn := c; isNewConn := isNew;
                      connClose := if isNew then Some (ConnNotify c) else None;
                      channelClose := ChannelNotify chn;
                      lastTimeConnectionUsed := now;
                      isNeedRecreateChannel := length (flags s) |} in
          let s := setChannel (Some chn) s in
          let s := log [NotifyClose (ChannelNotify chn) connCloseChanSize] s in
          let s := if isNew then log [NotifyClose (ConnNotify c) connCloseChanSize] s else s in
          Some (setPc (Serving g) (setFlags (flags s ++ [false])%list s))
      end
  | EvConnClose closeErr isOpen, Selecting g =>
      match connClose g with
      | None => None                  (* a receive from a nil channel never completes *)
      | Some notify =>
          let s := logIfError "rabbit consumer connection error" closeErr s in
          if isSome closeErr || negb isOpen then
            Some (setPc Reconnect
                   (log [GoReadAllErrors notify; PoolCloseConnection (conn g)] s))
          else Some (setPc (Serving g) s)
      end
  | EvChannelClose closeErr isOpen, Selecting g =>
      let s := logIfError "rabbit consumer channel error" closeErr s in
      if isSome closeErr || negb isOpen then
        Some (setPc Reconnect
               (log [GoReadAllErrors (channelClose g);
                     PoolCloseConsumerChannel (channel s)] s))
      else Some (setPc (Serving g) s)
  | EvHeartbeat now, Selecting g =>
      if isStale now g || Load (isNeedRecreateChannel g) s then
        let s := if Load (isNeedRecreateChannel g) s
                 then log [LogError "heartbeatTicker.C" (Some "heartbeatTicker.C")] s
                 else s in
        Some (setPc Reconnect (log [PoolCloseConsumerChannel (channel s)] s))
      else Some (setPc (Serving g) s)
  | EvMetrics, Selecting g =>
      Some (setPc (Serving g)
             (log [GoCollectMetrics (channel s) (hostName s) (Queue (cfg s))] s))
  | EvDelivery d now, Selecting g =>
      match d with
      | None => Some (setPc Reconnect (log [PoolCloseConsumerChannel (channel s)] s))
      | Some d =>
          let g := touch now g in
          Some (setPc (Pushing g (envelope d g s)) (Add 1 (noteArrival d now s)))
      end
  | EvSend, Pushing g m =>
      if (length (ch s) <? chCap s)%nat
      then Some (setPc (Serving g) (setQueue (ch s ++ [m])%list (held s) [m] [] s))
      else None
  | EvHandOff, Pushing g m =>
      match ch s with
      | [] => Some (setPc (Serving g) (setQueue [] (held s ++ [m])%list [m] [m] s))
      | _ :: _ => None
      end
  | EvEpilogue, WaitInProgress =>
      if itemsInProgress s =? 0 then Some (setPc ReleaseChannel s) else None
  | EvEpilogue, ReleaseChannel =>
      Some (setPc CloseOutput (log [PoolCloseConsumerChannel (channel s)] s))
  | EvEpilogue, CloseOutput =>
      Some (setPc SignalDone (setClosedChans true (closed s) s))
  | EvEpilogue, SignalDone =>
      Some (setPc Exited (setClosedChans (chClosed s) true s))
  | EvReceive, _ =>
      match ch s with
      | m :: rest => Some (setQueue rest (held s ++ [m])%list [] [m] s)
      | [] => None
      end
  | EvCallback i err, _ =>
      match held s !! i with
      | None => None
      | Some m =>
          let s := setQueue (ch s) (delete i (held s)) [] [] s in
          let s := match err with
                   | Some e => Store (callback m) (log [LogError "callback error" (Some e)] s)
                   | None => s
                   end in
          (* Done() on a zero counter panics *)
          if 0 <? itemsInProgress s then Some (Add (-1) s) else None
      end
  | EvCloseLock t, _ =>
      match mu s, closers s !! t with
      | None, None => Some (setMutex (Some t) (<[t := Locked]> (closers s)) s)
      | _, _ => None
      end
  | EvCloseCheck t, _ =>
      match closers s !! t with
      | Some Locked =>
          if isClosed s
          then Some (setMutex (mu s) (<[t := Returning None]> (closers s)) s)
          else Some (setMutex (mu s) (<[t := AwaitDone]> (closers s)) (setIsClosed true s))
      | _ => None
      end
  | EvCloseAwait t, _ =>
      match closers s !! t with
      | Some AwaitDone =>
          if closed s
          then Some (setMutex (mu s) (<[t := Returning None]> (closers s)) s)
          else None
      | _ => None
      end
  | EvCloseReturn t, _ =>
      match closers s !! t with
      | Some (Returning r) => Some (setMutex None (<[t := Finished r]> (closers s)) s)
      | _ => None
      end
  | _, _ => None
  end.

Fixpoint run (s : State) (evs : list Event) : option State :=
  match evs with
  | [] => Some s
  | e :: rest =>
      match step s e with
      | Some s' => run s' rest
      | None => None
      end
  end.

(** Modelled from the spec: the constructor of the engine, which is not
    among the sources.  It builds the output queue with some capacity and
    the done-signal, both open, leaves the closing flag and the in-flight
    count at their zero values, and starts [start] on its own goroutine. *)
Definition NewConsumer (c : ConsumerConfig) (h : string) (capacity : nat) : State :=
  {| cfg := c; ch := []; chClosed := false; mu := None; closed := false;
     isClosed := false; itemsInProgress := 0;
     hostName := h; pc := Reconnect; channel := None; flags := [];
     chCap := capacity; held := []; closers := ∅;
     trace := []; arrived := []; pushed := []; taken := []; lastDelivery := None |}.

(** The states a run of the engine and its application can be in. *)
Inductive reachable : State -> Prop :=
| reachable_new c h capacity : reachable (NewConsumer c h capacity)
| reachable_step s e s' : reachable s -> step s e = Some s' -> reachable s'.

(** ** Reading a state *)

(** The envelope whose send is under way. *)
Definition sending (p : Pc) : list Message :=
  match p with
  | Pushing _ m => [m]
  | _ => []
  end.

(** The variables of the current pass, while it serves. *)
Definition generationOf (p : Pc) : option Generation :=
  match p with
  | Serving g | Selecting g | Pushing g _ => Some g
  | _ => None
  end.

(** [start] has left [reconnectLoop] (line 162 and after). *)
Definition loopExited (p : Pc) : bool :=
  match p with
  | WaitInProgress | ReleaseChannel | CloseOutput | SignalDone | Exited => true
  | _ => false
  end.

(** [itemsInProgress.Wait()] has returned (line 163 and after). *)
Definition waitReturned (p : Pc) : bool :=
  match p with
  | ReleaseChannel | CloseOutput | SignalDone | Exited => true
  | _ => false
  end.

(** [close(c.ch)] has run (line 165 and after). *)
Definition outputClosed (p : Pc) : bool :=
  match p with
  | SignalDone | Exited => true
  | _ => false
  end.

(** [close(c.closed)] has run. *)
Definition doneSignalled (p : Pc) : bool :=
  match p with
  | Exited => true
  | _ => false
  end.

(** A caller of [Close] between [Lock] and the deferred [Unlock]. *)
Definition insideClose (o : option ClosePc) : bool :=
  match o with
  | Some Locked | Some AwaitDone | Some (Returning _) => true
  | _ => false
  end.

(** What a call of [Close] returned, once it has. *)
Definition returnedBy (o : option ClosePc) : option (option error) :=
  match o with
  | Some (Returning r) | Some (Finished r) => Some r
  | _ => None
  end.

(** The in-flight count against the envelopes that are out. *)
Definition drainInvariant (s : State) : Prop :=
  itemsInProgress s
    = Z.of_nat (length (ch s) + length (held s) + length (sending (pc s))) /\
  (loopExited (pc s) = true -> isClosed s = true) /\
  (waitReturned (pc s) = true -> itemsInProgress s = 0) /\
  chClosed s = outputClosed (pc s) /\
  closed s = doneSignalled (pc s).

(** The mutex of [Close] and the closing flag. *)
Definition closeInvariant (s : State) : Prop :=
  (forall t, insideClose (closers s !! t) = true -> mu s = Some t) /\
  (isClosed s = true ->
   closed s = true \/ exists t, closers s !! t = Some AwaitDone) /\
  (forall t r, returnedBy (closers s !! t) = Some r -> r = None /\ closed s = true).

(** The deliveries read against the envelopes sent. *)
Definition orderInvariant (s : State) : Prop :=
  pushed s = (taken s ++ ch s)%list /\
  map msg (pushed s ++ sending (pc s))%list = arrived s /\
  (forall m, In m (pushed s ++ sending (pc s))%list ->
     host m = hostName s /\ queue m = Queue (cfg s)).

(** Everything but the mutex and the callers of [Close]: what the engine
    and the application can observe of the consumer. *)
Definition sameConsumer (s s' : State) : Prop :=
  cfg s' = cfg s /\ ch s' = ch s /\ chClosed s' = chClosed s /\
  closed s' = closed s /\ isClosed s' = isClosed s /\
  itemsInProgress s' = itemsInProgress s /\ hostName s' = hostName s /\
  pc s' = pc s /\ channel s' = channel s /\ flags s' = flags s /\
  chCap s' = chCap s /\ held s' = held s /\ trace s' = trace s /\
  arrived s' = arrived s /\ pushed s' = pushed s /\ taken s' = taken s /\
  lastDelivery s' = lastDelivery s.

(** The events of a caller of [Close]. *)
Definition isCloseEvent (e : Event) : bool :=
  match e with
  | EvCloseLock _ | EvCloseCheck _ | EvCloseAwait _ | EvCloseReturn _ => true
  | _ => false
  end.

(** What the application does, as opposed to the goroutine of [start]. *)
Definition isApplicationEvent (e : Event) : bool :=
  match e with
  | EvReceive | EvCallback _ _ => true
  | _ => isCloseEvent e
  end.

(** The steps [start] takes without waiting for anyone. *)
Definition isOwnStep (e : Event) : bool :=
  match e with
  | EvLoopExit | EvEpilogue => true
  | _ => false
  end.

(** The flags that the current pass and the envelopes that are out refer
    to have been allocated. *)
Definition callbackInvariant (s : State) : Prop :=
  (forall g, generationOf (pc s) = Some g ->
     (isNeedRecreateChannel g < length (flags s))%nat) /\
  (forall m, In m (ch s ++ held s ++ sending (pc s))%list ->
     (callback m < length (flags s))%nat).

(** While a pass serves, [channel] is the channel it created, the one
    whose close-signals it watches. *)
Definition channelInvariant (s : State) : Prop :=
  forall g, generationOf (pc s) = Some g ->
    exists chn, channel s = Some chn /\ channelClose g = ChannelNotify chn.

(** Connection close-signals are subscribed to for a new connection only. *)
Definition notifyInvariant (s : State) : Prop :=
  forall g, generationOf (pc s) = Some g ->
    connClose g = if isNewConn g then Some (ConnNotify (conn g)) else None.

(** One failed attempt to acquire: the pool hands back no connection, or
    the channel cannot be created on the connection it handed back. *)
Inductive AcquireFailure :=
| GetFailed (err : error)
| CreateFailed (c : nat) (isNew : bool) (err : error) (now : Time).

Definition failureEvents (f : AcquireFailure) : list Event :=
  match f with
  | GetFailed err => [EvLoopEnter; EvGet (inr err)]
  | CreateFailed c isNew err now =>
      [EvLoopEnter; EvGet (inl (c, isNew)); EvCreateChannel (inr err) now]
  end.

(** The connection a failed attempt had acquired. *)
Definition acquiredBy (f : AcquireFailure) : list nat :=
  match f with
  | GetFailed _ => []
  | CreateFailed c _ _ _ => [c]
  end.

(** What is logged for a failed attempt (lines 62-64 and 78-80). *)
Definition failureLog (f : AcquireFailure) : Action :=
  match f with
  | GetFailed err => LogError "connectionsManager.Get" (Some err)
  | CreateFailed _ _ err _ => LogError "CreateConsumerChannel" (Some err)
  end.

(** The flag of the current pass has been allocated. *)
Definition flagInvariant (s : State) : Prop :=
  forall g, generationOf (pc s) = Some g ->
    (isNeedRecreateChannel g < length (flags s))%nat.

(** The pauses and the closed connections of a trace. *)
Definition sleeps (acts : list Action) : list Z :=
  flat_map (fun a => match a with Sleep d => [d] | _ => [] end) acts.

Definition closedConnections (acts : list Action) : list nat :=
  flat_map (fun a => match a with PoolCloseConnection c => [c] | _ => [] end) acts.

(** ** Sample configurations, brokers and runs *)

Definition quietCallback : MetricsCallback := fun _ _ _ => None.

Definition bothMetrics : MetricsConfig :=
  {| QueueLength := Some quietCallback; QueueDelay := Some quietCallback;
     CheckInterval := 30 * second |}.

(** A queue-length callback that panics. *)
Definition panickingCallback : MetricsCallback := fun _ _ _ => Some "boom".

Definition panickyMetrics : MetricsConfig :=
  {| QueueLength := Some panickingCallback; QueueDelay := Some quietCallback;
     CheckInterval := 0 |}.

Definition noCallbacks : MetricsConfig :=
  {| QueueLength := None; QueueDelay := None; CheckInterval := 0 |}.

Definition ordersConfig (m : option MetricsConfig) : ConsumerConfig :=
  {| Queue := "orders"; Tag := "worker"; QueuePriority := 0;
     PrefetchCount := defaultPrefetchCount; Metrics := m |}.

(** A broker channel whose queue holds [depth] messages, the oldest
    stamped at [stamp]. *)
Definition brokerWith (depth : Z) (stamp : Time) : AmqpChannel :=
  {| IsClosed := false;
     QueueDeclarePassive := fun _ => Returned (inl depth);
     Get := fun _ _ => Returned (inl ({| Body := "payload"; Timestamp := stamp |}, true));
     Reject := fun _ _ => Returned None |}.

(** A broker channel on which the passive declare is refused. *)
Definition brokerRefusing : AmqpChannel :=
  {| IsClosed := false;
     QueueDeclarePassive := fun _ => Returned (inr "NOT_FOUND - no queue 'orders'");
     Get := fun _ _ => Returned (inr "channel closed");
     Reject := fun _ _ => Returned None |}.

(** A broker channel whose queue held two messages at the declare and
    none at the fetch. *)
Definition brokerEmptied : AmqpChannel :=
  {| IsClosed := false;
     QueueDeclarePassive := fun _ => Returned (inl 2);
     Get := fun _ _ => Returned (inl ({| Body := ""; Timestamp := 0 |}, false));
     Reject := fun _ _ => Returned None |}.

(** The consumer of the queue "orders" with an output queue of two
    slots, after the given events (or as built, if they cannot happen). *)
Definition ordersConsumer : State :=
  NewConsumer (ordersConfig None) "rabbit-1" 2.

Definition afterEvents (evs : list Event) : State :=
  default ordersConsumer (run ordersConsumer evs).

Definition order (n : Z) : Delivery :=
  {| Body := "order"; Timestamp := n * second |}.

(** A first pass on a new connection 1 with channel 7, got at time 0. *)
Definition firstPass : list Event :=
  [EvLoopEnter; EvGet (inl (1%nat, true)); EvCreateChannel (inl 7%nat) 0].

(** The variables of that pass, and of a second pass on the same
    connection, now shared, with channel 8 got at 303s. *)
Definition firstGeneration : Generation :=
  {| conn := 1; isNewConn := true; connClose := Some (ConnNotify 1);
     channelClose := ChannelNotify 7; lastTimeConnectionUsed := 0;
     isNeedRecreateChannel := 0 |}.

Definition secondGeneration : Generation :=
  {| conn := 1; isNewConn := false; connClose := None;
     channelClose := ChannelNotify 8; lastTimeConnectionUsed := 303 * second;
     isNeedRecreateChannel := 1 |}.

(** Three deliveries, one per second, received as they come and
    acknowledged out of order. *)
Definition threeOrders : list Event :=
  (firstPass ++
   [EvLoopEnter; EvDelivery (Some (order 1)) (1 * second); EvSend;
    EvLoopEnter; EvDelivery (Some (order 2)) (2 * second); EvSend;
    EvReceive;
    EvLoopEnter; EvDelivery (Some (order 3)) (3 * second); EvSend;
    EvReceive; EvCallback 1 None; EvCallback 0 None])%list.

(** One delivery at 1s; the idle channel is rebuilt by the heartbeat of
    302s; the second pass, on the shared connection, gets channel 8 at
    303s and waits in its select. *)
Definition rebuiltWhenIdle : list Event :=
  (firstPass ++
   [EvLoopEnter; EvDelivery (Some (order 1)) (1 * second); EvSend;
    EvLoopEnter; EvHeartbeat (302 * second);
    EvLoopEnter; EvGet (inl (1%nat, false)); EvCreateChannel (inl 8%nat) (303 * second);
    EvLoopEnter])%list.

(** After the rebuild the envelope of the first pass is received and its
    callback reports an error. *)
Definition lateErrorReport : list Event :=
  (rebuiltWhenIdle ++ [EvReceive; EvCallback 0 (Some "handler failed")])%list.

(** The envelope of the n-th order, sent by the first pass. *)
Definition orderEnvelope (n : Z) : Message :=
  {| msg := order n; host := "rabbit-1"; queue := "orders"; callback := 0 |}.

(** Two orders fill the queue; the third is read and waits to be sent. *)
Definition queueFull : list Event :=
  (firstPass ++
   [EvLoopEnter; EvDelivery (Some (order 1)) (1 * second); EvSend;
    EvLoopEnter; EvDelivery (Some (order 2)) (2 * second); EvSend;
    EvLoopEnter; EvDelivery (Some (order 3)) (3 * second)])%list.

(** One order, received and not yet acknowledged. *)
Definition oneHeld : list Event :=
  (firstPass ++
   [EvLoopEnter; EvDelivery (Some (order 1)) (1 * second); EvSend; EvReceive])%list.

(** [Close] sets the flag while the engine waits in its select. *)
Definition closingWhileServing : list Event :=
  (firstPass ++ [EvLoopEnter; EvCloseLock 1; EvCloseCheck 1])%list.

(** [Close] called by caller 1 on an idle consumer, run to its end. *)
Definition closedOnce : list Event :=
  (firstPass ++
   [EvLoopEnter; EvCloseLock 1; EvCloseCheck 1; EvHeartbeat (1 * second);
    EvLoopExit; EvLoopExit; EvEpilogue; EvEpilogue; EvEpilogue; EvEpilogue;
    EvCloseAwait 1; EvCloseReturn 1])%list.

End Rabbit.

(* ===================================================================== *)
(** * Properties of clickhouse.go                                          *)
(* ===================================================================== *)

Section ConnectProperties.

Import Clickhouse.

Variable GetConnectionDSN : ConnectionConfig -> string.
Variable sql_Open : string -> string -> DB + error.
Variable Ping : DB -> option error.


(** ** A connection that opens *)

Lemma aligned_started : aligned NewContainer ∅.
Proof. intros name. simpl. rewrite !lookup_empty. done. Qed.

(** What the unregistering of lines 48-50 leaves in the registry. *)
Lemma unregistered_lookup (cont : Container) (reg : gmap string StatsCollector)
    (name name' : string) :
  aligned cont reg ->
  match GetCollector cont name with
  | Some collector => prometheus_Unregister collector reg
  | None => reg
  end !! name' = if decide (name' = name) then None else reg !! name'.
Proof.
  intros Hal. pose proof (Hal name) as Hn. unfold GetCollector.
  destruct (conns cont !! name) as [db0 |].
  - destruct Hn as (_ & -> & _). unfold prometheus_Unregister. simpl.
    case_decide as Heq; [subst; apply lookup_delete_eq | by apply lookup_delete_ne].
  - destruct Hn as (_ & -> & Hreg). case_decide as Heq; [by subst | done].
Qed.

(** A connection that opens is stored, and the maps stay aligned. *)
Lemma Connect_opened (cont : Container) (reg : gmap string StatsCollector)
    (name : string) (c : ConnectionConfig) (db : DB) :
  aligned cont reg ->
  sql_Open "clickhouse" (GetConnectionDSN c) = inl db ->
  Ping db = None ->
  let after := Connect GetConnectionDSN sql_Open Ping cont reg name c in
  result after = Returned None /\
  aligned (container after) (registry after).
Proof.
  intros Hal Hopen Hping. unfold Connect. rewrite Hopen, Hping.
  pose proof (unregistered_lookup cont reg name) as Hreg.
  unfold prometheus_MustRegister. simpl.
  rewrite (Hreg name Hal). rewrite decide_True by done. simpl.
  split; [done |].
  intros name'. simpl. destruct (decide (name = name')) as [<- | Hne].
  - rewrite !lookup_insert_eq. split_and!; [| done | done].
    exists c. split; [done |]. by repeat split.
  - rewrite !lookup_insert_ne by done. rewrite (Hreg name' Hal).
    rewrite decide_False by done. apply Hal.
Qed.

(** X1: on a container whose maps are aligned with the registry, a
    [Connect] whose open and ping succeed returns nil; [Get] then yields
    the opened handle with the four limits of the configuration set on
    it, [GetCollector] yields the collector made for that name and
    handle, which is the one registered, the configuration is stored
    under the name, and the maps are aligned again. *)
Theorem Connect_success_stores (cont : Container) (reg : gmap string StatsCollector)
    (name : string) (c : ConnectionConfig) (db : DB) :
  aligned cont reg ->
  sql_Open "clickhouse" (GetConnectionDSN c) = inl db ->
  Ping db = None ->
  let after := Connect GetConnectionDSN sql_Open Ping cont reg name c in
  result after = Returned None /\
  (exists h, Get (container after) name = Some h /\
     dsnOf h = dsnOf db /\ limitsFrom c h /\
     GetCollector (container after) name = Some (NewStatsCollector name h) /\
     registry after !! name = Some (NewStatsCollector name h)) /\
  cfg (container after) !! name = Some c /\
  aligned (container after) (registry after).
Proof.
  intros Hal Hopen Hping.
  destruct (Connect_opened cont reg name c db Hal Hopen Hping) as [_ Hal'].
  revert Hal'. unfold Connect. rewrite Hopen, Hping.
  set (h := SetConnMaxLifetime _ _).
  unfold prometheus_MustRegister. simpl.
  rewrite (unregistered_lookup cont reg name name Hal).
  rewrite decide_True by done. simpl. intros Hal'.
  split_and!.
  - done.
  - exists h. unfold Get, GetCollector. simpl. rewrite !lookup_insert_eq.
    split_and!; done.
  - by rewrite lookup_insert_eq.
  - exact Hal'.
Qed.

(** X2: whatever its outcome, [Connect] under one name leaves what the
    container holds under every other name as it was: the handle, the
    collector and the configuration. *)
Theorem Connect_other_names_untouched (cont : Container)
    (reg : gmap string StatsCollector) (name other : string) (c : ConnectionConfig) :
  other <> name ->
  let after := Connect GetConnectionDSN sql_Open Ping cont reg name c in
  Get (container after) other = Get cont other /\
  GetCollector (container after) other = GetCollector cont other /\
  cfg (container after) !! other = cfg cont !! other.
Proof.
  intros Hne. unfold Connect, Get, GetCollector.
  destruct (sql_Open "clickhouse" (GetConnectionDSN c)) as [db | e]; [| done].
  destruct (Ping db); [done |].
  destruct (prometheus_MustRegister _ _); simpl; [| done].
  by rewrite !lookup_insert_ne.
Qed.

(** X4: when the name is not in the container but a collector of that
    name is registered, by another container say, a [Connect] whose
    open and ping succeed panics in [MustRegister], before the maps are
    written: the container and the registry are left as they were. *)
Theorem Connect_foreign_collector_panics (cont : Container)
    (reg : gmap string StatsCollector) (name : string) (c : ConnectionConfig)
    (db : DB) (foreign : StatsCollector) :
  GetCollector cont name = None ->
  reg !! name = Some foreign ->
  sql_Open "clickhouse" (GetConnectionDSN c) = inl db ->
  Ping db = None ->
  let after := Connect GetConnectionDSN sql_Open Ping cont reg name c in
  (exists v, result after = Panicked v) /\
  container after = cont /\ registry after = reg.
Proof.
  intros Hnone Hreg Hopen Hping. unfold Connect.
  rewrite Hopen, Hping, Hnone. unfold prometheus_MustRegister. simpl.
  rewrite Hreg. simpl. eauto.
Qed.

End ConnectProperties.

Section ConnectSequences.

Import Clickhouse.

Variable GetConnectionDSN : ConnectionConfig -> string.

Lemma connectOnce_aligned (a : Attempt) (st : Connected) :
  aligned (container st) (registry st) ->
  (exists r, result (connectOnce GetConnectionDSN a st) = Returned r) /\
  aligned (container (connectOnce GetConnectionDSN a st))
          (registry (connectOnce GetConnectionDSN a st)).
Proof.
  intros Hal. unfold connectOnce.
  destruct (opened a) as [db | e] eqn:Hopen.
  - destruct (pinged a) as [e |] eqn:Hping.
    + unfold Connect. simpl. eauto.
    + destruct (Connect_opened GetConnectionDSN (fun _ _ => inl db)
                  (fun _ => None) (container st) (registry st)
                  (attemptName a) (attemptConfig a) db Hal eq_refl eq_refl)
        as (Hres & Hal'). eauto.
  - unfold Connect. simpl. eauto.
Qed.

(** X3: a program that builds a container and only calls [Connect] on
    it, any number of times, under any names, repeated or not, and
    whatever the driver answers each time, never panics in
    [MustRegister], and the maps of the container stay aligned with each
    other and with the registry. *)
Theorem connectAll_never_panics (attempts : list Attempt) :
  let st := connectAll GetConnectionDSN attempts started in
  (exists r, result st = Returned r) /\
  aligned (container st) (registry st).
Proof.
  cbn zeta.
  assert (Hgen : forall st, (exists r, result st = Returned r) ->
            aligned (container st) (registry st) ->
            (exists r, result (connectAll GetConnectionDSN attempts st) = Returned r) /\
            aligned (container (connectAll GetConnectionDSN attempts st))
                    (registry (connectAll GetConnectionDSN attempts st))).
  { induction attempts as [| a rest IH]; intros st [r Hr] Hal; simpl.
    - eauto.
    - rewrite Hr. destruct (connectOnce_aligned a st Hal) as [Hret Hal'].
      by apply IH. }
  apply Hgen; [by exists None | apply aligned_started].
Qed.

End ConnectSequences.


(* ===================================================================== *)
(** * Properties of the metrics sampler                                    *)
(* ===================================================================== *)

Section Sampler.

Import Rabbit.

(** The deferred function of [collectMetrics] stops every panic. *)
Lemma collectMetrics_returns (c : ConsumerConfig) (channel : option AmqpChannel)
    (h q : string) (now : Time) :
  snd (collectMetrics c channel h q now) = Returned tt.
Proof.
  unfold collectMetrics, deferRecover.
  destruct (collectMetricsBody c channel h q now) as [acts [[] | v]]; reflexivity.
Qed.

Lemma wholeSeconds_nonneg (d : Z) : 0 <= d -> 0 <= wholeSeconds d.
Proof.
  intros H. unfold wholeSeconds, second.
  apply Z.quot_pos; lia.
Qed.

Ltac run_task :=
  unfold collectMetrics, collectMetricsBody, deferRecover, logRecovered,
    bind, call, invoke, ret.

Lemma bind_silent {A B : Type} (t : Task A) (k : A -> Task B) :
  existsb isLog (fst t) = false ->
  (forall a, existsb isLog (fst (k a)) = false) ->
  existsb isLog (fst (bind t k)) = false.
Proof.
  unfold bind. destruct t as [acts [a | v]]; simpl; intros Ht Hk; [| done].
  rewrite existsb_app, Ht. apply Hk.
Qed.

(** Nothing in the body of [collectMetrics] writes to the log. *)
Lemma collectMetricsBody_silent (c : ConsumerConfig) (channel : option AmqpChannel)
    (h q : string) (now : Time) :
  existsb isLog (fst (collectMetricsBody c channel h q now)) = false.
Proof.
  unfold collectMetricsBody.
  destruct channel as [chn |]; [| done].
  destruct (IsClosed chn); [done |].
  destruct (Metrics c) as [m |]; [| done].
  apply bind_silent; [done |]. intros [messages | e]; [| done].
  apply bind_silent; [by destruct (QueueLength m) |]. intros _.
  destruct (QueueDelay m) as [f |]; [| done].
  destruct (messages =? 0); [done |].
  apply bind_silent; [done |]. intros [[m0 [|]] | e]; try done.
  apply bind_silent; [done |]. intros _.
  by destruct (secondsNonNegative _).
Qed.


(** C9, as the code has it: [collectMetrics] never ends panicking; a
    panic of its body is logged by the deferred function; a body that
    returns, also after a broker error, logs nothing; without a channel,
    on a closed channel or without a metrics section it does nothing at
    all; and the engine only launches it: the metrics tick records the
    [go] statement and goes back to the loop head, whatever the broker
    will answer. *)
Theorem collectMetrics_isolated (c : ConsumerConfig) (channel : option AmqpChannel)
    (h q : string) (now : Time) (s : State) (g : Generation) :
  let body := collectMetricsBody c channel h q now in
  let task := collectMetrics c channel h q now in
  crashes task = false /\
  (forall v, snd body = Panicked v ->
     fst task =
     (fst body ++ [LogError "unable to collect rabbit metrics" (Some v)])%list) /\
  (forall u, snd body = Returned u -> existsb isLog (fst task) = false) /\
  (channel = None \/ (exists chn, channel = Some chn /\ IsClosed chn = true) \/
   Metrics c = None -> task = ([], Returned tt)) /\
  (pc s = Selecting g ->
   step s EvMetrics =
   Some (setPc (Serving g)
          (log [GoCollectMetrics (Rabbit.channel s) (hostName s) (Queue (cfg s))] s))).
Proof.
  cbn zeta. repeat split.
  - unfold crashes. by rewrite collectMetrics_returns.
  - intros v Hv. unfold collectMetrics, deferRecover.
    destruct (collectMetricsBody c channel h q now) as [acts r]. simpl in *.
    by subst r.
  - intros u Hu. pose proof (collectMetricsBody_silent c channel h q now) as Hs.
    unfold collectMetrics, deferRecover.
    destruct (collectMetricsBody c channel h q now) as [acts r]. simpl in *.
    subst r. by destruct u.
  - intros [-> | [(chn & -> & Hcl) | Hm]].
    + reflexivity.
    + run_task. by rewrite Hcl.
    + run_task. destruct channel as [chn |]; [| done].
      destruct (IsClosed chn); [done |]. by rewrite Hm.
  - intros Hpc. unfold step. by rewrite Hpc.
Qed.

(** ** The sampler on every input *)

Ltac every_case :=
  repeat match goal with
         | |- context [match ?x with _ => _ end] =>
             lazymatch x with
             | context [match _ with _ => _ end] => fail
             | _ => destruct x eqn:?; simpl
             end
         end.

(** X5: the period given to the metrics ticker is always positive (a
    ticker with a period that is not panics): it is the configured check
    interval when that is positive, and one year of 365 days when the
    metrics section is absent or its interval is zero or negative. *)
Theorem metricsInterval_positive (c : ConsumerConfig) :
  0 < metricsInterval c /\
  (forall m, Metrics c = Some m -> 0 < CheckInterval m ->
     metricsInterval c = CheckInterval m) /\
  (forall m, Metrics c = Some m -> CheckInterval m <= 0 ->
     metricsInterval c = 365 * 24 * 3600 * second) /\
  (Metrics c = None -> metricsInterval c = 365 * 24 * 3600 * second).
Proof.
  unfold metricsInterval. split_and!.
  - destruct (Metrics c) as [m |]; [| done].
    destruct (0 <? CheckInterval m) eqn:Hpos; [by apply Z.ltb_lt | done].
  - intros m -> Hpos. apply Z.ltb_lt in Hpos. by rewrite Hpos.
  - intros m -> Hneg. apply Z.ltb_ge in Hneg. by rewrite Hneg.
  - by intros ->.
Qed.

(** X6: whatever the configuration and whatever the broker answers,
    [collectMetrics] calls the broker channel at most three times and
    only in this order: the passive declare, one fetch without
    auto-acknowledgement, and one reject with requeue.  It never
    acknowledges, never rejects without requeue and never fetches
    twice. *)
Theorem collectMetrics_peeks (c : ConsumerConfig) (channel : option AmqpChannel)
    (h q : string) (now : Time) :
  let calls := brokerCalls (fst (collectMetrics c channel h q now)) in
  calls = [] \/
  calls = [BrokerQueueDeclarePassive q] \/
  calls = [BrokerQueueDeclarePassive q; BrokerGet q false] \/
  calls = [BrokerQueueDeclarePassive q; BrokerGet q false; BrokerReject true].
Proof.
  cbn zeta. run_task. every_case; auto.
Qed.

(** X7: whatever the configuration, the broker's answers and the clock,
    the queue-delay callback is called at most once per collection, for
    the host and queue of the consumer, and never with a negative
    value. *)
Theorem collectMetrics_delay_never_negative (c : ConsumerConfig)
    (channel : option AmqpChannel) (h q : string) (now : Time) :
  let reports := delayReports (fst (collectMetrics c channel h q now)) in
  (length reports <= 1)%nat /\
  forall h' q' n, In (h', q', n) reports -> h' = h /\ q' = q /\ 0 <= n.
Proof.
  cbn zeta. run_task. every_case; (split; [lia |]).
  all: intros h' q' n Hin; try contradiction.
  all: destruct Hin as [[= <- <- <-] | []]; split_and!; try done.
  all: apply Z.quot_pos; [| done];
    match goal with
    | H : secondsNonNegative _ = true |- _ => by apply Z.leb_le in H
    end.
Qed.

(** X8: on an open channel, with a queue-length callback configured and
    the passive declare answered, the callback is called exactly once,
    with the host, the queue and the declared depth, whether or not a
    queue-delay callback is configured and whatever happens afterwards
    (a failing fetch, a panic of either callback). *)
Theorem collectMetrics_length_reported (c : ConsumerConfig) (chn : AmqpChannel)
    (m : MetricsConfig) (f : MetricsCallback) (h q : string) (now : Time)
    (depth : Z) :
  IsClosed chn = false ->
  Metrics c = Some m ->
  QueueLength m = Some f ->
  QueueDeclarePassive chn q = Returned (inl depth) ->
  lengthReports (fst (collectMetrics c (Some chn) h q now)) = [(h, q, depth)].
Proof.
  intros Hopen Hm Hf Hdecl. run_task. rewrite Hopen, Hm, Hdecl, Hf.
  every_case; reflexivity.
Qed.

(** X9: when the declared depth is not zero but the fetch then fails, or
    finds the queue empty, nothing is rejected, no delay is reported,
    nothing is logged, and the collection returns normally. *)
Theorem collectMetrics_empty_peek (c : ConsumerConfig) (chn : AmqpChannel)
    (m : MetricsConfig) (f : MetricsCallback) (h q : string) (now : Time)
    (depth : Z) :
  IsClosed chn = false ->
  Metrics c = Some m ->
  QueueDelay m = Some f ->
  QueueDeclarePassive chn q = Returned (inl depth) ->
  depth <> 0 ->
  lengthCall m h q depth = None ->
  (exists e, Get chn q false = Returned (inr e)) \/
  (exists m0, Get chn q false = Returned (inl (m0, false))) ->
  let task := collectMetrics c (Some chn) h q now in
  delayReports (fst task) = [] /\
  brokerCalls (fst task) = [BrokerQueueDeclarePassive q; BrokerGet q false] /\
  existsb isLog (fst task) = false /\
  snd task = Returned tt.
Proof.
  intros Hopen Hm Hf Hdecl Hne%Z.eqb_neq Hlen Hget. unfold lengthCall in Hlen.
  cbn zeta. run_task. rewrite Hopen, Hm, Hdecl, Hf, Hne.
  destruct Hget as [[e ->] | [m0 ->]];
    (destruct (QueueLength m) as [g |]; [rewrite Hlen |]); simpl; done.
Qed.

End Sampler.


Lemma collectMetrics_isolated_witness :
  let task :=
    Rabbit.collectMetrics (Rabbit.ordersConfig (Some Rabbit.panickyMetrics))
      (Some (Rabbit.brokerWith 3 0)) "rabbit-1" "orders" 100 in
  Rabbit.crashes task = false /\
  fst task = [Rabbit.BrokerQueueDeclarePassive "orders";
              Rabbit.ReportQueueLength "rabbit-1" "orders" 3;
              Rabbit.LogError "unable to collect rabbit metrics" (Some "boom")].
Proof.
  intros task.
  destruct (collectMetrics_isolated (Rabbit.ordersConfig (Some Rabbit.panickyMetrics))
              (Some (Rabbit.brokerWith 3 0)) "rabbit-1" "orders" 100
              Rabbit.ordersConsumer Rabbit.firstGeneration)
    as (Halive & Hlogged & _).
  split; [exact Halive |].
  exact (Hlogged "boom" eq_refl).
Defined.

(** C9 as stated fails: a refused passive declare is a failure of the
    collection and leaves nothing in the log; and with a metrics section
    that holds no callback the broker is still queried. *)
Lemma collectMetrics_error_not_logged :
  Rabbit.QueueDeclarePassive Rabbit.brokerRefusing "orders"
    = Returned (inr "NOT_FOUND - no queue 'orders'") /\
  Rabbit.collectMetrics (Rabbit.ordersConfig (Some Rabbit.bothMetrics))
    (Some Rabbit.brokerRefusing) "rabbit-1" "orders" 100
    = ([Rabbit.BrokerQueueDeclarePassive "orders"], Returned tt) /\
  Rabbit.collectMetrics (Rabbit.ordersConfig (Some Rabbit.noCallbacks))
    (Some (Rabbit.brokerWith 3 0)) "rabbit-1" "orders" 100
    = ([Rabbit.BrokerQueueDeclarePassive "orders"], Returned tt).
Proof. repeat split. Qed.

(* ===================================================================== *)
(** * Properties of the consumer engine                                    *)
(* ===================================================================== *)

Section Engine.

Import Rabbit.

(** Every way a step can go, one goal each. *)
Ltac step_cases H :=
  unfold step, logIfError, Store, Add in H;
  repeat match type of H with
         | context [match ?x with _ => _ end] => destruct x eqn:?; try discriminate H
         end;
  injection H as <-.

Ltac map_case t t0 :=
  destruct (decide (t = t0)) as [<- | ?];
  [rewrite lookup_insert_eq | rewrite lookup_insert_ne by done].

(** ** Runs *)

Lemma run_app (s : State) (evs evs' : list Event) :
  run s (evs ++ evs') =
  match run s evs with Some s' => run s' evs' | None => None end.
Proof.
  revert s. induction evs as [| e evs IH]; intros s; simpl; [done |].
  destruct (step s e); [apply IH | done].
Qed.

Lemma reachable_run (s : State) (evs : list Event) (s' : State) :
  reachable s -> run s evs = Some s' -> reachable s'.
Proof.
  revert s. induction evs as [| e evs IH]; simpl; intros s Hs Hrun.
  - by injection Hrun as <-.
  - destruct (step s e) as [s1 |] eqn:Hstep; [| done].
    eapply IH; [| done]. by eapply reachable_step.
Qed.

Lemma reachable_afterEvents (evs : list Event) : reachable (afterEvents evs).
Proof.
  unfold afterEvents.
  destruct (run ordersConsumer evs) as [s |] eqn:Hrun; simpl.
  - eapply reachable_run; [apply reachable_new | exact Hrun].
  - apply reachable_new.
Qed.

Lemma log_log (a b : list Action) (s : State) :
  log b (log a s) = log (a ++ b) s.
Proof. unfold log; simpl. by rewrite app_assoc. Qed.

(** ** The in-flight count *)

Lemma drainInvariant_new (c : ConsumerConfig) (h : string) (n : nat) :
  drainInvariant (NewConsumer c h n).
Proof. unfold drainInvariant. simpl. repeat split; done. Qed.

Lemma drainInvariant_step (s : State) (e : Event) (s' : State) :
  drainInvariant s -> step s e = Some s' -> drainInvariant s'.
Proof.
  intros (Hcount & Hexit & Hwait & Hout & Hdone) Hstep.
  step_cases Hstep; unfold drainInvariant; simpl in *.
  all: try match goal with
           | H : held _ !! _ = Some _ |- _ =>
               pose proof (lookup_lt_Some _ _ _ H);
               pose proof (length_delete _ _ (mk_is_Some _ _ H))
           end.
  all: try match goal with H : (_ =? _) = true |- _ => apply Z.eqb_eq in H end.
  all: try match goal with H : ch _ = _ |- _ => rewrite H in * end.
  all: rewrite ?length_app in *; simpl in *.
  all: try match goal with H : (_ <? _) = true |- _ => apply Z.ltb_lt in H end.
  all: repeat split; intros; auto; try lia; try congruence.
  all: match goal with
       | H : _ -> itemsInProgress _ = 0 |- _ => specialize (H ltac:(assumption))
       end; lia.
Qed.

(** ** The mutex of Close *)

Lemma step_frame (s : State) (e : Event) (s' : State) :
  step s e = Some s' -> isCloseEvent e = false ->
  closers s' = closers s /\ mu s' = mu s /\ isClosed s' = isClosed s /\
  (closed s = true -> closed s' = true).
Proof.
  intros Hstep He. destruct e; try discriminate He; clear He.
  all: step_cases Hstep; simpl; auto.
Qed.

Lemma closeInvariant_new (c : ConsumerConfig) (h : string) (n : nat) :
  closeInvariant (NewConsumer c h n).
Proof. unfold closeInvariant. simpl. repeat split; done. Qed.

Lemma closeInvariant_step (s : State) (e : Event) (s' : State) :
  closeInvariant s -> step s e = Some s' -> closeInvariant s'.
Proof.
  intros (Hmu & Hflag & Hret) Hstep.
  destruct (isCloseEvent e) eqn:He.
  - destruct e; try discriminate He; clear He; unfold step in Hstep.
    + (* Lock *)
      destruct (mu s) eqn:Hfree; [done |].
      destruct (closers s !! t) eqn:Hnew; [done |]. injection Hstep as <-.
      unfold closeInvariant; simpl. split_and!.
      * intros t0. map_case t t0; [done |]. intros H%Hmu. congruence.
      * intros [? | [t1 H1]]%Hflag; [by left |]. right. exists t1.
        rewrite lookup_insert_ne; [done | congruence].
      * intros t0 r. map_case t t0; [done | apply Hret].
    + (* the test of the flag *)
      destruct (closers s !! t) as [[| | |] |] eqn:Hat; try done.
      assert (Hheld : mu s = Some t) by (apply Hmu; by rewrite Hat).
      destruct (isClosed s) eqn:Hc; injection Hstep as <-;
        unfold closeInvariant; simpl.
      * assert (Hdone : closed s = true).
        { destruct (Hflag eq_refl) as [? | [t1 H1]]; [done |].
          assert (mu s = Some t1) by (apply Hmu; by rewrite H1). congruence. }
        split_and!.
        -- intros t0. map_case t t0; [done | apply Hmu].
        -- intros _. by left.
        -- intros t0 r. map_case t t0; [| apply Hret]. simpl. by intros [= <-].
      * split_and!.
        -- intros t0. map_case t t0; [done | apply Hmu].
        -- intros _. right. exists t. by rewrite lookup_insert_eq.
        -- intros t0 r. map_case t t0; [done | apply Hret].
    + (* the wait for the done-signal *)
      destruct (closers s !! t) as [[| | |] |] eqn:Hat; try done.
      assert (Hheld : mu s = Some t) by (apply Hmu; by rewrite Hat).
      destruct (closed s) eqn:Hd; [| done]. injection Hstep as <-.
      unfold closeInvariant; simpl. rewrite Hd. split_and!.
      * intros t0. map_case t t0; [done | apply Hmu].
      * intros _. by left.
      * intros t0 r. map_case t t0; [| apply Hret]. simpl. by intros [= <-].
    + (* return *)
      destruct (closers s !! t) as [[| | r |] |] eqn:Hat; try done.
      assert (Hheld : mu s = Some t) by (apply Hmu; by rewrite Hat).
      destruct (Hret t r) as [-> Hd]; [by rewrite Hat |].
      injection Hstep as <-.
      unfold closeInvariant; simpl. split_and!.
      * intros t0. map_case t t0; [done |]. intros H%Hmu. congruence.
      * intros _. by left.
      * intros t0 r. map_case t t0; [| apply Hret]. simpl. by intros [= <-].
  - destruct (step_frame _ _ _ Hstep He) as (Hcs & Hm & Hc & Hd).
    unfold closeInvariant. rewrite Hcs, Hm, Hc. split_and!.
    + done.
    + intros [? | ?]%Hflag; [left; auto | by right].
    + intros t r [-> ?]%Hret. auto.
Qed.

(** ** The order of the envelopes *)

Lemma orderInvariant_new (c : ConsumerConfig) (h : string) (n : nat) :
  orderInvariant (NewConsumer c h n).
Proof. unfold orderInvariant. simpl. repeat split; done. Qed.

Lemma orderInvariant_step (s : State) (e : Event) (s' : State) :
  orderInvariant s -> step s e = Some s' -> orderInvariant s'.
Proof.
  intros (Hqueue & Hmap & Hfields) Hstep.
  step_cases Hstep; unfold orderInvariant; simpl in *.
  all: rewrite ?app_nil_r in *.
  all: try (exact (conj Hqueue (conj Hmap Hfields))).
  - split_and!; [done | by rewrite map_app, Hmap |].
    intros m [Hin | [<- | []]]%in_app_iff; [auto | done].
  - split_and!; [rewrite Hqueue; by rewrite app_assoc | done | done].
  - split_and!; [by rewrite Hqueue | done | done].
  - split_and!; [rewrite Hqueue; by rewrite <- app_assoc | done | done].
Qed.

(** ** The close-signal subscriptions *)

Lemma notifyInvariant_new (c : ConsumerConfig) (h : string) (n : nat) :
  notifyInvariant (NewConsumer c h n).
Proof. intros g. simpl. done. Qed.

Lemma notifyInvariant_step (s : State) (e : Event) (s' : State) :
  notifyInvariant s -> step s e = Some s' -> notifyInvariant s'.
Proof.
  unfold notifyInvariant. intros Hinv Hstep.
  step_cases Hstep; simpl in *; try done.
  all: try match goal with H : pc _ = _ |- _ => rewrite H in Hinv end; simpl in *.
  all: try (intros ? [= <-]; simpl; auto; fail).
Qed.

Lemma reachable_invariants (s : State) :
  reachable s ->
  drainInvariant s /\ closeInvariant s /\ orderInvariant s /\ notifyInvariant s.
Proof.
  induction 1 as [c h n | s e s' _ (Hd & Hc & Ho & Hn) Hstep].
  - split_and!; [apply drainInvariant_new | apply closeInvariant_new
                 | apply orderInvariant_new | apply notifyInvariant_new].
  - split_and!; [by eapply drainInvariant_step | by eapply closeInvariant_step
                 | by eapply orderInvariant_step | by eapply notifyInvariant_step].
Qed.

(** Once the loop is left it stays left: nothing more is read from the
    broker, nothing more is sent to the application. *)
Lemma loopExited_step (s : State) (e : Event) (s' : State) :
  step s e = Some s' -> loopExited (pc s) = true ->
  loopExited (pc s') = true /\ pushed s' = pushed s /\ arrived s' = arrived s /\
  (outputClosed (pc s) = true -> outputClosed (pc s') = true).
Proof.
  intros Hstep Hexit.
  step_cases Hstep; simpl in *; rewrite ?app_nil_r.
  all: try match goal with H : pc _ = _ |- _ => rewrite H in * end; simpl in *.
  all: done.
Qed.

Lemma loopExited_run (s : State) (evs : list Event) (s' : State) :
  run s evs = Some s' -> loopExited (pc s) = true ->
  loopExited (pc s') = true /\ pushed s' = pushed s /\ arrived s' = arrived s /\
  (outputClosed (pc s) = true -> outputClosed (pc s') = true).
Proof.
  revert s. induction evs as [| e evs IH]; simpl; intros s Hrun Hexit.
  - injection Hrun as <-. done.
  - destruct (step s e) as [s1 |] eqn:Hstep; [| done].
    destruct (loopExited_step _ _ _ Hstep Hexit) as (H1 & H2 & H3 & H4).
    destruct (IH _ Hrun H1) as (H5 & H6 & H7 & H8).
    split_and!; [done | congruence | congruence | auto].
Qed.

(** ** Drain and close *)

Lemma outputClosed_waitReturned (p : Pc) :
  outputClosed p = true -> waitReturned p = true /\ loopExited p = true.
Proof. by destruct p. Qed.

Lemma doneSignalled_outputClosed (p : Pc) :
  doneSignalled p = true -> outputClosed p = true.
Proof. by destruct p. Qed.


Lemma step_CloseLock (s : State) (t : nat) :
  mu s = None -> closers s !! t = None ->
  step s (EvCloseLock t) = Some (setMutex (Some t) (<[t:=Locked]> (closers s)) s).
Proof. intros Hfree Hnew. unfold step. rewrite Hfree, Hnew. by destruct (pc s). Qed.

Lemma step_CloseCheck_closed (s : State) (t : nat) :
  closers s !! t = Some Locked -> isClosed s = true ->
  step s (EvCloseCheck t)
  = Some (setMutex (mu s) (<[t:=Returning None]> (closers s)) s).
Proof. intros Hat Hset. unfold step. rewrite Hat, Hset. by destruct (pc s). Qed.

Lemma step_CloseReturn (s : State) (t : nat) (r : option error) :
  closers s !! t = Some (Returning r) ->
  step s (EvCloseReturn t) = Some (setMutex None (<[t:=Finished r]> (closers s)) s).
Proof. intros Hat. unfold step. rewrite Hat. by destruct (pc s). Qed.

(** C2: once a call of [Close] has returned, it returned nil and so did
    every other call; whatever another caller of [Close] does from then
    on changes nothing of the consumer but the mutex; and a further call
    takes the mutex, sees the flag set and returns nil without waiting. *)
Theorem Close_is_idempotent (s : State) (first : nat) (r1 : option error) :
  reachable s ->
  closers s !! first = Some (Finished r1) ->
  r1 = None /\
  (forall t r, returnedBy (closers s !! t) = Some r -> r = None) /\
  isClosed s = true /\ closed s = true /\
  (forall e s', isCloseEvent e = true -> step s e = Some s' -> sameConsumer s s') /\
  (forall t, mu s = None -> closers s !! t = None ->
     exists s', run s [EvCloseLock t; EvCloseCheck t; EvCloseReturn t] = Some s' /\
       closers s' !! t = Some (Finished None) /\ mu s' = None /\
       sameConsumer s s').
Proof.
  intros Hreach Hfirst.
  destruct (reachable_invariants s Hreach)
    as ((_ & Hexit & _ & _ & Hdone) & (Hmu & Hflag & Hret) & _ & _).
  destruct (Hret first r1) as [-> Hfired]; [by rewrite Hfirst |].
  assert (Hset : isClosed s = true).
  { apply Hexit. rewrite Hfired in Hdone. by destruct (pc s). }
  split_and!; try done.
  - intros t r H. by destruct (Hret t r H).
  - intros e s' He Hstep. destruct e; try discriminate He; clear He;
      unfold step in Hstep; rewrite ?Hset, ?Hfired in Hstep.
    + destruct (mu s); [by destruct (pc s) |].
      destruct (closers s !! t); [by destruct (pc s) |].
      assert (s' = setMutex (Some t) (<[t:=Locked]> (closers s)) s)
        by (destruct (pc s); congruence).
      subst s'. by repeat split.
    + destruct (closers s !! t) as [[| | |] |]; try by destruct (pc s).
      assert (s' = setMutex (mu s) (<[t:=Returning None]> (closers s)) s)
        by (destruct (pc s); congruence).
      subst s'. by repeat split.
    + destruct (closers s !! t) as [[| | |] |]; try by destruct (pc s).
      assert (s' = setMutex (mu s) (<[t:=Returning None]> (closers s)) s)
        by (destruct (pc s); congruence).
      subst s'. by repeat split.
    + destruct (closers s !! t) as [[| | r |] |]; try by destruct (pc s).
      assert (s' = setMutex None (<[t:=Finished r]> (closers s)) s)
        by (destruct (pc s); congruence).
      subst s'. by repeat split.
  - intros t Hfree Hnew.
    eexists. split_and!.
    + cbn [run]. rewrite (step_CloseLock s t Hfree Hnew).
      rewrite step_CloseCheck_closed; [| simpl; by rewrite lookup_insert_eq | done].
      rewrite (step_CloseReturn _ t None); [done |].
      simpl; by rewrite lookup_insert_eq.
    + simpl. by rewrite lookup_insert_eq.
    + done.
    + by repeat split.
Qed.

(** C3: in every state of every run the envelopes sent to the output
    queue, followed by the one whose send is under way, carry exactly the
    deliveries read from the broker, in the order they were read, each
    with the host and queue of the consumer; the application receives
    them in that order; and the in-flight count covers every envelope
    that is out, the one being sent included: it was incremented when
    the delivery was read, the queue untouched, and the send that follows
    appends the envelope and leaves the count alone. *)
Theorem deliveries_forwarded_in_order (s : State) :
  reachable s ->
  map msg (pushed s ++ sending (pc s))%list = arrived s /\
  pushed s = (taken s ++ ch s)%list /\
  (forall m, In m (pushed s ++ sending (pc s))%list ->
     host m = hostName s /\ queue m = Queue (cfg s)) /\
  itemsInProgress s
    = Z.of_nat (length (ch s) + length (held s) + length (sending (pc s))) /\
  (forall g d now, pc s = Selecting g ->
     exists s1, step s (EvDelivery (Some d) now) = Some s1 /\
       itemsInProgress s1 = itemsInProgress s + 1 /\
       ch s1 = ch s /\ pushed s1 = pushed s /\
       pc s1 = Pushing (touch now g) (envelope d (touch now g) s) /\
       forall s2, step s1 EvSend = Some s2 ->
         ch s2 = (ch s ++ [envelope d (touch now g) s])%list /\
         pushed s2 = (pushed s ++ [envelope d (touch now g) s])%list /\
         itemsInProgress s2 = itemsInProgress s1).
Proof.
  intros Hreach.
  destruct (reachable_invariants s Hreach)
    as ((Hcount & _) & _ & (Hqueue & Hmap & Hfields) & _).
  split_and!; try done.
  intros g d now Hpc. eexists. split.
  { unfold step. rewrite Hpc. reflexivity. }
  simpl. split_and!; try done.
  intros s2. unfold step. simpl.
  destruct (length (ch s) <? chCap s)%nat; [| done].
  intros [= <-]. simpl. done.
Qed.

(** ** Heartbeat *)

Lemma flagInvariant_new (c : ConsumerConfig) (h : string) (n : nat) :
  flagInvariant (NewConsumer c h n).
Proof. intros g. simpl. done. Qed.

Lemma flagInvariant_step (s : State) (e : Event) (s' : State) :
  flagInvariant s -> step s e = Some s' -> flagInvariant s'.
Proof.
  unfold flagInvariant. intros Hinv Hstep.
  step_cases Hstep; simpl in *; try done.
  all: rewrite ?length_insert, ?length_app; simpl.
  all: try match goal with H : pc _ = _ |- _ => rewrite H in Hinv end; simpl in *.
  all: try (intros ? [= <-]; simpl; try lia; auto; fail).
  all: try done.
Qed.

Lemma reachable_flagInvariant (s : State) : reachable s -> flagInvariant s.
Proof.
  induction 1; [apply flagInvariant_new | by eapply flagInvariant_step].
Qed.


(** ** Close-signals *)


Lemma readAllErrors_drains (pending : list (option error)) :
  readAllErrors pending = [].
Proof. induction pending as [| e rest IH]; [done | exact IH]. Qed.


(** ** Acquiring *)

Lemma sleeps_app (a b : list Action) :
  sleeps (a ++ b)%list = (sleeps a ++ sleeps b)%list.
Proof. apply flat_map_app. Qed.

Lemma closedConnections_app (a b : list Action) :
  closedConnections (a ++ b)%list = (closedConnections a ++ closedConnections b)%list.
Proof. apply flat_map_app. Qed.

(** One failed attempt: the failure is logged, the connection that was
    acquired, if any, is closed, the engine sleeps one second and is back
    at the head of the loop. *)
Lemma failed_attempt (s : State) (f : AcquireFailure) :
  pc s = Reconnect -> isClosed s = false ->
  exists s' acts, run s (failureEvents f) = Some s' /\
    pc s' = Reconnect /\ isClosed s' = false /\
    trace s' = (trace s ++ acts)%list /\
    sleeps acts = [second] /\
    closedConnections acts = acquiredBy f /\
    In (failureLog f) acts.
Proof.
  intros Hpc Hopen.
  assert (Henter : step s EvLoopEnter = Some (setPc Acquiring s))
    by (unfold step; by rewrite Hpc, Hopen).
  destruct f as [err | c isNew err now]; cbn [run failureEvents]; rewrite Henter.
  - eexists _, _. split_and!; [done | done | done | | | |].
    + simpl. by rewrite <- app_assoc.
    + done.
    + done.
    + simpl. auto.
  - eexists _, _. split_and!; [done | done | done | | | |].
    + simpl. by rewrite <- !app_assoc.
    + done.
    + done.
    + simpl. auto 10.
Qed.


(** ** Further invariants of the engine *)

Lemma step_monotone (s : State) (e : Event) (s' : State) :
  step s e = Some s' ->
  (isClosed s = true -> isClosed s' = true) /\
  (chClosed s = true -> chClosed s' = true) /\
  (closed s = true -> closed s' = true) /\
  cfg s' = cfg s /\ hostName s' = hostName s /\ chCap s' = chCap s.
Proof.
  intros Hstep. step_cases Hstep; simpl; split_and!; auto; try done; try congruence.
Qed.

(** X10: along any run the closing flag, once set, stays set; the
    output queue, once closed, stays closed; the done-signal, once
    fired, stays fired; and the configuration, the host name and the
    capacity of the output queue never change. *)
Theorem closing_is_monotone (s : State) (evs : list Event) (s' : State) :
  run s evs = Some s' ->
  (isClosed s = true -> isClosed s' = true) /\
  (chClosed s = true -> chClosed s' = true) /\
  (closed s = true -> closed s' = true) /\
  cfg s' = cfg s /\ hostName s' = hostName s /\ chCap s' = chCap s.
Proof.
  revert s. induction evs as [| e evs IH]; simpl; intros s Hrun.
  - by injection Hrun as <-.
  - destruct (step s e) as [s1 |] eqn:Hstep; [| done].
    destruct (step_monotone _ _ _ Hstep) as (H1 & H2 & H3 & H4 & H5 & H6).
    destruct (IH _ Hrun) as (H1' & H2' & H3' & H4' & H5' & H6').
    split_and!; auto; congruence.
Qed.

(** X11: while the send of an envelope finds the output queue full, the
    goroutine of [start] takes no step at all: only the application can
    move, no delivery is read and none is dropped; and as soon as the
    application has received one envelope the send goes through, the
    envelope is queued last and the engine is back at the head of the
    inner loop. *)
Theorem full_queue_blocks_the_engine (s : State) (g : Generation) (m : Message) :
  pc s = Pushing g m ->
  length (ch s) = chCap s ->
  ch s <> [] ->
  (forall e s', step s e = Some s' ->
     isApplicationEvent e = true /\ pc s' = Pushing g m /\
     arrived s' = arrived s /\ pushed s' = pushed s) /\
  (exists s1 s2, step s EvReceive = Some s1 /\ step s1 EvSend = Some s2 /\
     pc s2 = Serving g /\ ch s2 = (tail (ch s) ++ [m])%list).
Proof.
  intros Hpc Hfull Hne. split.
  - intros e s' Hstep.
    assert (Hsend : (length (ch s) <? chCap s)%nat = false)
      by (apply Nat.ltb_ge; lia).
    destruct e; unfold step in Hstep; rewrite ?Hpc in Hstep; try discriminate Hstep.
    + by rewrite Hsend in Hstep.
    + by destruct (ch s).
    + destruct (ch s); [done |]. injection Hstep as <-. simpl.
      by rewrite app_nil_r.
    + step_cases Hstep; simpl; by rewrite ?app_nil_r.
    + step_cases Hstep; simpl; done.
    + step_cases Hstep; simpl; done.
    + step_cases Hstep; simpl; done.
    + step_cases Hstep; simpl; done.
  - destruct (ch s) as [| m0 rest] eqn:Hch; [done |].
    eexists _, _. split; [unfold step; rewrite ?Hpc, Hch; done |].
    unfold step. simpl. rewrite Hpc. simpl in Hfull.
    assert (Hroom : (length rest <? chCap s)%nat = true)
      by (apply Nat.ltb_lt; lia).
    rewrite Hroom. done.
Qed.

(** X12: in every state of every run, invoking the callback of any
    envelope the application holds, with or without an error, goes
    through: the in-flight count is positive, so [Done] does not panic;
    the count drops by one and stays non-negative, and the envelope
    leaves the application's hands. *)
Theorem callback_never_panics (s : State) (i : nat) (m : Message)
    (err : option error) :
  reachable s ->
  held s !! i = Some m ->
  exists s', step s (EvCallback i err) = Some s' /\
    itemsInProgress s' = itemsInProgress s - 1 /\
    0 <= itemsInProgress s' /\
    held s' = delete i (held s) /\ ch s' = ch s /\ pc s' = pc s.
Proof.
  intros Hreach Hat.
  destruct (reachable_invariants s Hreach) as ((Hcount & _) & _).
  apply lookup_lt_Some in Hat as Hlt.
  assert (Hpos : (0 <? itemsInProgress s) = true) by (apply Z.ltb_lt; lia).
  unfold step. rewrite Hat.
  destruct err as [e |]; unfold Store, Add; simpl; rewrite Hpos; eexists;
    (split; [by destruct (pc s) |]); simpl; split_and!; try done; lia.
Qed.



(** The mutex is held only by a caller that is inside [Close]. *)
Lemma mutex_held_inside (s : State) :
  reachable s -> forall t, mu s = Some t -> insideClose (closers s !! t) = true.
Proof.
  induction 1 as [c h n | s e s' _ IH Hstep]; [done |].
  destruct (isCloseEvent e) eqn:He.
  - destruct e; try discriminate He; clear He; unfold step in Hstep.
    + destruct (mu s) eqn:Hfree; [by destruct (pc s) |].
      destruct (closers s !! t) eqn:Hnew; [by destruct (pc s) |].
      assert (s' = setMutex (Some t) (<[t:=Locked]> (closers s)) s)
        by (destruct (pc s); congruence).
      subst s'. simpl. intros t0 [= <-]. by rewrite lookup_insert_eq.
    + destruct (closers s !! t) as [[| | |] |] eqn:Hat; try by destruct (pc s).
      destruct (isClosed s);
        [assert (s' = setMutex (mu s) (<[t:=Returning None]> (closers s)) s)
           by (destruct (pc s); congruence)
        |assert (s' = setMutex (mu s) (<[t:=AwaitDone]> (closers s))
                        (setIsClosed true s))
           by (destruct (pc s); congruence)];
        subst s'; simpl; intros t0 Hm; map_case t t0; auto.
    + destruct (closers s !! t) as [[| | |] |] eqn:Hat; try by destruct (pc s).
      destruct (closed s); [| by destruct (pc s)].
      assert (s' = setMutex (mu s) (<[t:=Returning None]> (closers s)) s)
        by (destruct (pc s); congruence).
      subst s'; simpl; intros t0 Hm; map_case t t0; auto.
    + destruct (closers s !! t) as [[| | r |] |] eqn:Hat; try by destruct (pc s).
      assert (s' = setMutex None (<[t:=Finished r]> (closers s)) s)
        by (destruct (pc s); congruence).
      subst s'. simpl. done.
  - destruct (step_frame _ _ _ Hstep He) as (Hcs & Hm & _).
    rewrite Hcs, Hm. exact IH.
Qed.

(** X14: in every state of every run at most one caller is between the
    [Lock] and the deferred [Unlock] of [Close]; it holds the mutex, and
    every other caller is blocked at [Lock].  Both ways out of [Close]
    unlock: the mutex is held only while some caller is inside, and a
    call that has returned has left it free for the next. *)
Theorem Close_is_mutually_exclusive (s : State) :
  reachable s ->
  (forall t1 t2,
     insideClose (closers s !! t1) = true ->
     insideClose (closers s !! t2) = true ->
     t1 = t2 /\ mu s = Some t1 /\
     forall t, t <> t1 -> step s (EvCloseLock t) = None) /\
  (forall t, mu s = Some t -> insideClose (closers s !! t) = true) /\
  ((forall t, insideClose (closers s !! t) = false) ->
   mu s = None /\
   forall t, closers s !! t = None ->
     step s (EvCloseLock t)
     = Some (setMutex (Some t) (<[t:=Locked]> (closers s)) s)).
Proof.
  intros Hreach.
  destruct (reachable_invariants s Hreach) as (_ & (Hmu & _) & _).
  pose proof (mutex_held_inside s Hreach) as Hheld.
  split_and!.
  - intros t1 t2 H1 H2.
    pose proof (Hmu t1 H1) as Hm1. pose proof (Hmu t2 H2) as Hm2.
    split_and!; [congruence | done |].
    intros t Hne. unfold step. rewrite Hm1. by destruct (pc s).
  - exact Hheld.
  - intros Hnone.
    assert (Hfree : mu s = None).
    { destruct (mu s) as [t |] eqn:Hm; [| done].
      specialize (Hheld t eq_refl). by rewrite Hnone in Hheld. }
    split; [done |]. intros t Hnew. by apply step_CloseLock.
Qed.

Lemma In_delete {A : Type} (x : A) (i : nat) (l : list A) :
  In x (delete i l) -> In x l.
Proof.
  revert i. induction l as [| y l IH]; intros [| i]; simpl; auto.
  intros [-> | Hin]; eauto.
Qed.

Lemma callbackInvariant_new (c : ConsumerConfig) (h : string) (n : nat) :
  callbackInvariant (NewConsumer c h n).
Proof. split; [by intros g | by intros m []]. Qed.

Lemma callbackInvariant_step (s : State) (e : Event) (s' : State) :
  callbackInvariant s -> step s e = Some s' -> callbackInvariant s'.
Proof.
  unfold callbackInvariant. intros [Hgen Hout] Hstep.
  step_cases Hstep; simpl in *.
  all: rewrite ?length_insert, ?length_app; simpl.
  all: try match goal with H : pc _ = _ |- _ => rewrite H in * end; simpl in *.
  all: try (exact (conj Hgen Hout)).
  all: (split;
        [ intros g0 Hg; try discriminate Hg; try (injection Hg as <-); simpl;
          try lia; try (specialize (Hgen _ eq_refl); simpl in Hgen; lia); auto
        | ]).
  all: intros m0 Hin; rewrite ?in_app_iff in Hin; simpl in Hin;
    rewrite ?in_app_iff in Hin; simpl in Hin.
  all: cut (callback m0 < length (flags s))%nat; [lia |].
  all: destruct_or!; subst; try contradiction.
  all: try (apply Hout; rewrite ?in_app_iff; simpl; tauto).
  all: try (apply In_delete in Hin; apply Hout; rewrite ?in_app_iff; simpl; tauto).
  all: try (specialize (Hgen _ eq_refl); simpl in *; lia).
Qed.

Lemma reachable_callbackInvariant (s : State) : reachable s -> callbackInvariant s.
Proof.
  induction 1; [apply callbackInvariant_new | by eapply callbackInvariant_step].
Qed.

(** X15: an error reported through the callback of an envelope sets the
    flag captured by that callback and leaves the flag of the current
    pass as it was when the envelope comes from another pass; and a new
    pass starts with a flag that is unset and that no envelope still
    queued or held refers to. *)
Theorem error_reports_stay_with_their_pass (s : State) :
  reachable s ->
  (forall g i m e, generationOf (pc s) = Some g -> held s !! i = Some m ->
     callback m <> isNeedRecreateChannel g ->
     exists s', step s (EvCallback i (Some e)) = Some s' /\
       Load (callback m) s' = true /\
       Load (isNeedRecreateChannel g) s' = Load (isNeedRecreateChannel g) s) /\
  (forall c isNew chn now, pc s = CreateChannel c isNew ->
     exists s' g', step s (EvCreateChannel (inl chn) now) = Some s' /\
       pc s' = Serving g' /\ Load (isNeedRecreateChannel g') s' = false /\
       forall m, In m (ch s' ++ held s')%list ->
         callback m <> isNeedRecreateChannel g').
Proof.
  intros Hreach.
  destruct (reachable_invariants s Hreach) as ((Hcount & _) & _).
  destruct (reachable_callbackInvariant s Hreach) as [Hgen Hout].
  split.
  - intros g i m e Hg Hat Hne.
    apply lookup_lt_Some in Hat as Hlt.
    assert (Hpos : (0 <? itemsInProgress s) = true) by (apply Z.ltb_lt; lia).
    assert (Hin : In m (ch s ++ held s ++ sending (pc s))%list).
    { rewrite !in_app_iff. right; left. apply list_elem_of_In.
      by eapply list_elem_of_lookup_2. }
    specialize (Hout m Hin).
    unfold step. rewrite Hat. unfold Store, Add. simpl. rewrite Hpos.
    eexists. split; [by destruct (pc s) |]. unfold Load. simpl.
    split.
    + by rewrite list_lookup_insert_eq.
    + by rewrite list_lookup_insert_ne.
  - intros c isNew chn now Hpc. unfold step. rewrite Hpc.
    eexists _, _. split_and!; [done | done | |].
    + unfold Load. simpl. destruct isNew; simpl;
        by rewrite lookup_app_r, Nat.sub_diag.
    + intros m Hin. simpl.
      assert (Hlt : (callback m < length (flags s))%nat).
      { destruct isNew; simpl in Hin; apply Hout; rewrite !in_app_iff in *; tauto. }
      lia.
Qed.

Lemma epilogue_runs (s : State) :
  pc s = WaitInProgress -> itemsInProgress s = 0 ->
  exists s', run s [EvEpilogue; EvEpilogue; EvEpilogue; EvEpilogue] = Some s' /\
    pc s' = Exited /\ closed s' = true /\ chClosed s' = true /\
    trace s' = (trace s ++ [PoolCloseConsumerChannel (channel s)])%list.
Proof.
  intros Hpc Hzero. cbn [run].
  assert (H1 : step s EvEpilogue = Some (setPc ReleaseChannel s)).
  { unfold step. rewrite Hpc, Hzero. done. }
  rewrite H1. simpl. eexists. split_and!; done.
Qed.

(** X16: with the closing flag set and nothing in flight, the engine at
    a loop head takes only steps of its own (loop exits and the lines
    after the loop) to its end: it releases its channel through the
    pool, closes the output queue and fires the done-signal, adding
    nothing else to the trace.  Waiting in its select, it does so after
    the next heartbeat tick, whatever that tick finds. *)
Theorem closing_engine_runs_to_its_end (s : State) :
  isClosed s = true -> itemsInProgress s = 0 ->
  (pc s = Reconnect \/ (exists g, pc s = Serving g) ->
   exists evs s', Forall (fun e => isOwnStep e = true) evs /\
     run s evs = Some s' /\ pc s' = Exited /\ closed s' = true /\
     chClosed s' = true /\
     trace s' = (trace s ++ [PoolCloseConsumerChannel (channel s)])%list) /\
  (forall g now, pc s = Selecting g ->
   exists evs s', Forall (fun e => isOwnStep e = true) evs /\
     run s (EvHeartbeat now :: evs) = Some s' /\ pc s' = Exited /\
     closed s' = true /\ chClosed s' = true).
Proof.
  intros Hset Hzero.
  assert (Hhead : forall s0, isClosed s0 = true -> itemsInProgress s0 = 0 ->
            pc s0 = Reconnect ->
            exists s', run s0 (EvLoopExit :: [EvEpilogue; EvEpilogue; EvEpilogue; EvEpilogue])
                         = Some s' /\ pc s' = Exited /\ closed s' = true /\
              chClosed s' = true /\
              trace s' = (trace s0 ++ [PoolCloseConsumerChannel (channel s0)])%list).
  { intros s0 Hc Hz Hpc. cbn [run].
    assert (H1 : step s0 EvLoopExit = Some (setPc WaitInProgress s0))
      by (unfold step; by rewrite Hpc, Hc).
    rewrite H1. by apply (epilogue_runs (setPc WaitInProgress s0)). }
  assert (Hinner : forall s0 g, isClosed s0 = true -> itemsInProgress s0 = 0 ->
            pc s0 = Serving g ->
            exists s', run s0 (EvLoopExit :: EvLoopExit ::
                                [EvEpilogue; EvEpilogue; EvEpilogue; EvEpilogue])
                         = Some s' /\ pc s' = Exited /\ closed s' = true /\
              chClosed s' = true /\
              trace s' = (trace s0 ++ [PoolCloseConsumerChannel (channel s0)])%list).
  { intros s0 g Hc Hz Hpc. 
    assert (H1 : step s0 EvLoopExit = Some (setPc Reconnect s0))
      by (unfold step; by rewrite Hpc, Hc).
    cbn [run]. rewrite H1. by apply (Hhead (setPc Reconnect s0)). }
  split.
  - intros [Hpc | [g Hpc]].
    + destruct (Hhead s Hset Hzero Hpc) as (s' & Hrun & Hrest).
      eexists _, s'. split; [| by split]. repeat constructor.
    + destruct (Hinner s g Hset Hzero Hpc) as (s' & Hrun & Hrest).
      eexists _, s'. split; [| by split]. repeat constructor.
  - intros g now Hpc.
    destruct (isStale now g || Load (isNeedRecreateChannel g) s) eqn:Hc1;
      [destruct (Load (isNeedRecreateChannel g) s) eqn:Hc2 |].
    + assert (Hs : step s (EvHeartbeat now)
                   = Some (setPc Reconnect
                       (log [PoolCloseConsumerChannel (channel s)]
                         (log [LogError "heartbeatTicker.C" (Some "heartbeatTicker.C")] s))))
        by (unfold step; by rewrite Hpc, Hc2, Hc1).
      match type of Hs with
      | _ = Some ?x => destruct (Hhead x Hset Hzero eq_refl)
                         as (s' & Hrun & Hp & Hc & Hq & _)
      end.
      eexists _, s'. split; [| split_and!; try done; cbn [run]; rewrite Hs; exact Hrun].
      repeat constructor.
    + assert (Hs : step s (EvHeartbeat now)
                   = Some (setPc Reconnect
                       (log [PoolCloseConsumerChannel (channel s)] s)))
        by (unfold step; by rewrite Hpc, Hc2, Hc1).
      match type of Hs with
      | _ = Some ?x => destruct (Hhead x Hset Hzero eq_refl)
                         as (s' & Hrun & Hp & Hc & Hq & _)
      end.
      eexists _, s'. split; [| split_and!; try done; cbn [run]; rewrite Hs; exact Hrun].
      repeat constructor.
    + assert (Hs : step s (EvHeartbeat now) = Some (setPc (Serving g) s))
        by (unfold step; by rewrite Hpc, Hc1).
      destruct (Hinner (setPc (Serving g) s) g Hset Hzero eq_refl)
        as (s' & Hrun & Hp & Hc & Hq & _).
      eexists _, s'. split; [| split_and!; try done; cbn [run]; rewrite Hs; exact Hrun].
      repeat constructor.
Qed.

Lemma receive_all (n : nat) (s : State) :
  length (ch s) = n ->
  exists s', run s (repeat EvReceive n) = Some s' /\
    ch s' = [] /\ held s' = (held s ++ ch s)%list /\
    pc s' = pc s /\ itemsInProgress s' = itemsInProgress s /\
    isClosed s' = isClosed s /\ trace s' = trace s.
Proof.
  revert s. induction n as [| n IH]; intros s Hlen.
  - apply length_zero_iff_nil in Hlen. exists s. rewrite Hlen, app_nil_r. done.
  - destruct (ch s) as [| m rest] eqn:Hch; [done |]. injection Hlen as Hlen.
    assert (Hstep : step s EvReceive
                    = Some (setQueue rest (held s ++ [m])%list [] [m] s)).
    { unfold step. rewrite Hch. by destruct (pc s). }
    destruct (IH (setQueue rest (held s ++ [m])%list [] [m] s) Hlen)
      as (s' & Hrun & Hq & Hh & Hp & Hi & Hc & Ht).
    exists s'. cbn [repeat run]. rewrite Hstep. simpl in *.
    split_and!; try done. by rewrite Hh, <- app_assoc.
Qed.

Lemma acknowledge_all (n : nat) (s : State) :
  length (held s) = n ->
  Z.of_nat n <= itemsInProgress s ->
  exists s', run s (repeat (EvCallback 0 None) n) = Some s' /\
    held s' = [] /\ ch s' = ch s /\
    pc s' = pc s /\ itemsInProgress s' = itemsInProgress s - Z.of_nat n /\
    isClosed s' = isClosed s /\ trace s' = trace s.
Proof.
  revert s. induction n as [| n IH]; intros s Hlen Hcount.
  - apply length_zero_iff_nil in Hlen. exists s. simpl. split_and!; try done. lia.
  - destruct (held s) as [| m rest] eqn:Hheld; [done |]. injection Hlen as Hlen.
    assert (Hpos : (0 <? itemsInProgress s) = true) by (apply Z.ltb_lt; lia).
    assert (Hstep : step s (EvCallback 0 None)
                    = Some (Add (-1) (setQueue (ch s) rest [] [] s))).
    { unfold step. rewrite Hheld. simpl. rewrite Hpos. by destruct (pc s). }
    destruct (IH (Add (-1) (setQueue (ch s) rest [] [] s)))
      as (s' & Hrun & Hh & Hq & Hp & Hi & Hc & Ht); [done | simpl; lia |].
    exists s'. cbn [repeat run]. rewrite Hstep. simpl in *.
    split_and!; try done. lia.
Qed.

(** X17: from every state of every run in which no send is under way, an
    application that receives everything queued and then invokes the
    callback of everything it holds is never blocked, and leaves the
    in-flight count at zero with nothing queued and nothing held, the
    engine untouched. *)
Theorem application_drain_empties_the_count (s : State) :
  reachable s ->
  sending (pc s) = [] ->
  exists s',
    run s (repeat EvReceive (length (ch s)) ++
           repeat (EvCallback 0 None) (length (held s) + length (ch s)))%list
      = Some s' /\
    itemsInProgress s' = 0 /\ ch s' = [] /\ held s' = [] /\
    pc s' = pc s /\ isClosed s' = isClosed s /\ trace s' = trace s.
Proof.
  intros Hreach Hidle.
  destruct (reachable_invariants s Hreach) as ((Hcount & _) & _).
  rewrite Hidle in Hcount. simpl in Hcount.
  destruct (receive_all (length (ch s)) s eq_refl)
    as (s1 & Hrun1 & Hq1 & Hh1 & Hp1 & Hi1 & Hc1 & Ht1).
  destruct (acknowledge_all (length (held s) + length (ch s)) s1)
    as (s2 & Hrun2 & Hh2 & Hq2 & Hp2 & Hi2 & Hc2 & Ht2).
  { by rewrite Hh1, length_app. }
  { rewrite Hi1, Hcount. lia. }
  exists s2. split_and!; try congruence.
  - rewrite run_app. by rewrite Hrun1.
  - rewrite Hi2, Hi1, Hcount. lia.
Qed.

(** ** The channel of a pass *)

Lemma channelInvariant_new (c : ConsumerConfig) (h : string) (n : nat) :
  channelInvariant (NewConsumer c h n).
Proof. by intros g. Qed.

Lemma channelInvariant_step (s : State) (e : Event) (s' : State) :
  channelInvariant s -> step s e = Some s' -> channelInvariant s'.
Proof.
  unfold channelInvariant. intros Hinv Hstep.
  step_cases Hstep; simpl in *; try done.
  all: try match goal with H : pc _ = _ |- _ => rewrite H in Hinv end; simpl in *.
  all: try (intros ? [= <-]; simpl; eauto; fail).
Qed.

Lemma reachable_channelInvariant (s : State) : reachable s -> channelInvariant s.
Proof.
  induction 1; [apply channelInvariant_new | by eapply channelInvariant_step].
Qed.

(** X18: in every state of every run, a pass waiting in its select holds
    a channel that is not nil, the one it created and whose close-signals
    it watches; that channel is the one released when the delivery
    stream or the channel's close-signal channel is found closed, and
    the one handed to the metrics collection. *)
Theorem pass_releases_its_own_channel (s : State) (g : Generation) :
  reachable s ->
  pc s = Selecting g ->
  exists chn, channel s = Some chn /\ channelClose g = ChannelNotify chn /\
    (forall now, step s (EvDelivery None now)
       = Some (setPc Reconnect (log [PoolCloseConsumerChannel (Some chn)] s))) /\
    (step s (EvChannelClose None false)
       = Some (setPc Reconnect
                (log [GoReadAllErrors (ChannelNotify chn);
                      PoolCloseConsumerChannel (Some chn)] s))) /\
    (step s EvMetrics
       = Some (setPc (Serving g)
                (log [GoCollectMetrics (Some chn) (hostName s) (Queue (cfg s))] s))).
Proof.
  intros Hreach Hpc.
  destruct (reachable_channelInvariant s Hreach g) as (chn & Hchn & Hwatch);
    [by rewrite Hpc |].
  exists chn. split_and!; try done.
  - intros now. unfold step. by rewrite Hpc, Hchn.
  - unfold step, logIfError. rewrite Hpc. simpl. by rewrite Hchn, Hwatch.
  - unfold step. by rewrite Hpc, Hchn.
Qed.

(** X19: when the closing flag is already set and a pass ends because
    its delivery stream is closed, the channel is released by the fault
    path and then once more by the lines after the loop: the pool is
    asked twice, in a row, to close the same channel. *)
Theorem shutdown_after_fault_releases_twice (s : State) (g : Generation) (now : Time) :
  isClosed s = true ->
  itemsInProgress s = 0 ->
  pc s = Selecting g ->
  exists s',
    run s [EvDelivery None now; EvLoopExit;
           EvEpilogue; EvEpilogue; EvEpilogue; EvEpilogue] = Some s' /\
    pc s' = Exited /\
    trace s' = (trace s ++ [PoolCloseConsumerChannel (channel s);
                            PoolCloseConsumerChannel (channel s)])%list.
Proof.
  intros Hset Hzero Hpc. cbn [run].
  assert (H1 : step s (EvDelivery None now)
               = Some (setPc Reconnect (log [PoolCloseConsumerChannel (channel s)] s)))
    by (unfold step; by rewrite Hpc).
  rewrite H1.
  assert (H2 : step (setPc Reconnect (log [PoolCloseConsumerChannel (channel s)] s))
                 EvLoopExit
               = Some (setPc WaitInProgress
                         (log [PoolCloseConsumerChannel (channel s)] s)))
    by (unfold step; simpl; by rewrite Hset).
  rewrite H2.
  assert (H3 : step (setPc WaitInProgress
                       (log [PoolCloseConsumerChannel (channel s)] s)) EvEpilogue
               = Some (setPc ReleaseChannel
                         (log [PoolCloseConsumerChannel (channel s)] s)))
    by (unfold step; simpl; by rewrite Hzero).
  rewrite H3. simpl. eexists. split_and!; try done.
  simpl. by rewrite <- app_assoc.
Qed.

End Engine.

(* ===================================================================== *)
(** * The properties at work on sample runs                                *)
(* ===================================================================== *)


Lemma Close_is_idempotent_witness :
  let s := Rabbit.afterEvents Rabbit.closedOnce in
  Rabbit.closers s !! 1%nat = Some (Rabbit.Finished None) /\
  exists s',
    Rabbit.run s [Rabbit.EvCloseLock 2; Rabbit.EvCloseCheck 2; Rabbit.EvCloseReturn 2]
      = Some s' /\
    Rabbit.closers s' !! 2%nat = Some (Rabbit.Finished None) /\
    Rabbit.mu s' = None /\ Rabbit.sameConsumer s s'.
Proof.
  intros s.
  assert (Hfirst : Rabbit.closers s !! 1%nat = Some (Rabbit.Finished None))
    by (vm_compute; reflexivity).
  split; [exact Hfirst |].
  destruct (Close_is_idempotent s 1%nat None
              (reachable_afterEvents Rabbit.closedOnce) Hfirst)
    as (_ & _ & _ & _ & _ & Hagain).
  apply Hagain; vm_compute; reflexivity.
Defined.

Lemma deliveries_forwarded_in_order_witness :
  let s := Rabbit.afterEvents Rabbit.threeOrders in
  Rabbit.arrived s = [Rabbit.order 1; Rabbit.order 2; Rabbit.order 3] /\
  map Rabbit.msg (Rabbit.pushed s ++ Rabbit.sending (Rabbit.pc s))%list
    = Rabbit.arrived s /\
  Rabbit.pushed s = (Rabbit.taken s ++ Rabbit.ch s)%list.
Proof.
  intros s.
  destruct (deliveries_forwarded_in_order s
              (reachable_afterEvents Rabbit.threeOrders)) as (Hmap & Hqueue & _).
  split; [vm_compute; reflexivity |]. split; assumption.
Defined.







(* ===================================================================== *)
(** * Further properties at work                                           *)
(* ===================================================================== *)

Lemma Connect_success_stores_witness :
  let after :=
    Clickhouse.Connect Clickhouse.Address Clickhouse.acceptingOpen
      Clickhouse.pingByDSN Clickhouse.NewContainer ∅ "events"
      (Clickhouse.sampleConfig "tcp://ok") in
  Clickhouse.result after = Returned None /\
  Clickhouse.cfg (Clickhouse.container after) !! "events"
    = Some (Clickhouse.sampleConfig "tcp://ok").
Proof.
  intros after.
  destruct (Connect_success_stores Clickhouse.Address Clickhouse.acceptingOpen
              Clickhouse.pingByDSN Clickhouse.NewContainer ∅ "events"
              (Clickhouse.sampleConfig "tcp://ok") (Clickhouse.rawHandle "tcp://ok")
              aligned_started eq_refl eq_refl) as (Hres & _ & Hcfg & _).
  split; [exact Hres | exact Hcfg].
Defined.

Lemma Connect_other_names_untouched_witness :
  "metrics" <> "events" /\
  Clickhouse.Get
    (Clickhouse.container
       (Clickhouse.Connect Clickhouse.Address Clickhouse.acceptingOpen
          Clickhouse.pingByDSN Clickhouse.NewContainer ∅ "events"
          (Clickhouse.sampleConfig "tcp://ok"))) "metrics"
  = Clickhouse.Get Clickhouse.NewContainer "metrics".
Proof.
  assert (Hne : "metrics" <> "events") by discriminate.
  split; [exact Hne |].
  exact (proj1 (Connect_other_names_untouched Clickhouse.Address
                  Clickhouse.acceptingOpen Clickhouse.pingByDSN
                  Clickhouse.NewContainer ∅ "events" "metrics"
                  (Clickhouse.sampleConfig "tcp://ok") Hne)).
Defined.

Lemma Connect_foreign_collector_panics_witness :
  let foreign :=
    Clickhouse.NewStatsCollector "events" (Clickhouse.rawHandle "tcp://other") in
  let after :=
    Clickhouse.Connect Clickhouse.Address Clickhouse.acceptingOpen
      Clickhouse.pingByDSN Clickhouse.NewContainer {[ "events" := foreign ]} "events"
      (Clickhouse.sampleConfig "tcp://ok") in
  (exists v, Clickhouse.result after = Panicked v) /\
  Clickhouse.container after = Clickhouse.NewContainer.
Proof.
  intros foreign after.
  destruct (Connect_foreign_collector_panics Clickhouse.Address
              Clickhouse.acceptingOpen Clickhouse.pingByDSN Clickhouse.NewContainer
              {[ "events" := foreign ]} "events" (Clickhouse.sampleConfig "tcp://ok")
              (Clickhouse.rawHandle "tcp://ok") foreign
              eq_refl (lookup_singleton_eq _ _) eq_refl eq_refl)
    as (Hpanic & Hcont & _).
  split; [exact Hpanic | exact Hcont].
Defined.

Lemma collectMetrics_length_reported_witness :
  Rabbit.lengthReports
    (fst (Rabbit.collectMetrics (Rabbit.ordersConfig (Some Rabbit.panickyMetrics))
            (Some (Rabbit.brokerWith 3 0)) "rabbit-1" "orders" 100))
  = [("rabbit-1", "orders", 3)].
Proof.
  exact (collectMetrics_length_reported
           (Rabbit.ordersConfig (Some Rabbit.panickyMetrics)) (Rabbit.brokerWith 3 0)
           Rabbit.panickyMetrics Rabbit.panickingCallback "rabbit-1" "orders" 100 3
           eq_refl eq_refl eq_refl eq_refl).
Defined.

Lemma collectMetrics_empty_peek_witness :
  let task :=
    Rabbit.collectMetrics (Rabbit.ordersConfig (Some Rabbit.bothMetrics))
      (Some Rabbit.brokerEmptied) "rabbit-1" "orders" 100 in
  Rabbit.delayReports (fst task) = [] /\
  Rabbit.brokerCalls (fst task)
    = [Rabbit.BrokerQueueDeclarePassive "orders"; Rabbit.BrokerGet "orders" false].
Proof.
  intros task.
  assert (Hne : 2 <> 0) by lia.
  destruct (collectMetrics_empty_peek
              (Rabbit.ordersConfig (Some Rabbit.bothMetrics)) Rabbit.brokerEmptied
              Rabbit.bothMetrics Rabbit.quietCallback "rabbit-1" "orders" 100 2
              eq_refl eq_refl eq_refl eq_refl Hne eq_refl
              (or_intror (ex_intro _ {| Rabbit.Body := ""; Rabbit.Timestamp := 0 |} eq_refl)))
    as (Hrep & Hcalls & _).
  split; [exact Hrep | exact Hcalls].
Defined.

Lemma closing_is_monotone_witness :
  Rabbit.run Rabbit.ordersConsumer Rabbit.closedOnce
    = Some (Rabbit.afterEvents Rabbit.closedOnce) /\
  Rabbit.cfg (Rabbit.afterEvents Rabbit.closedOnce) = Rabbit.cfg Rabbit.ordersConsumer /\
  Rabbit.chCap (Rabbit.afterEvents Rabbit.closedOnce) = 2%nat.
Proof.
  assert (Hrun : Rabbit.run Rabbit.ordersConsumer Rabbit.closedOnce
                 = Some (Rabbit.afterEvents Rabbit.closedOnce))
    by (vm_compute; reflexivity).
  split; [exact Hrun |].
  destruct (closing_is_monotone _ _ _ Hrun) as (_ & _ & _ & Hcfg & _ & Hcap).
  split; [exact Hcfg | exact Hcap].
Defined.

Lemma full_queue_blocks_the_engine_witness :
  let s := Rabbit.afterEvents Rabbit.queueFull in
  Rabbit.pc s
    = Rabbit.Pushing (Rabbit.touch (3 * Rabbit.second) Rabbit.firstGeneration)
        (Rabbit.orderEnvelope 3) /\
  forall now s', Rabbit.step s (Rabbit.EvHeartbeat now) = Some s' -> False.
Proof.
  intros s.
  assert (Hpc : Rabbit.pc s
                = Rabbit.Pushing (Rabbit.touch (3 * Rabbit.second) Rabbit.firstGeneration)
                    (Rabbit.orderEnvelope 3)) by (vm_compute; reflexivity).
  split; [exact Hpc |].
  assert (Hfull : length (Rabbit.ch s) = Rabbit.chCap s) by (vm_compute; reflexivity).
  assert (Hne : Rabbit.ch s <> []) by (vm_compute; discriminate).
  destruct (full_queue_blocks_the_engine s _ _ Hpc Hfull Hne) as (Hblocked & _).
  intros now s' Hstep. destruct (Hblocked _ _ Hstep) as (Happ & _).
  discriminate Happ.
Defined.

Lemma callback_never_panics_witness :
  let s := Rabbit.afterEvents Rabbit.oneHeld in
  Rabbit.held s !! 0%nat = Some (Rabbit.orderEnvelope 1) /\
  exists s', Rabbit.step s (Rabbit.EvCallback 0 (Some "handler failed")) = Some s' /\
    Rabbit.itemsInProgress s' = Rabbit.itemsInProgress s - 1.
Proof.
  intros s.
  assert (Hat : Rabbit.held s !! 0%nat = Some (Rabbit.orderEnvelope 1))
    by (vm_compute; reflexivity).
  split; [exact Hat |].
  destruct (callback_never_panics s 0 _ (Some "handler failed")
              (reachable_afterEvents Rabbit.oneHeld) Hat) as (s' & Hstep & Hcount & _).
  exists s'. split; [exact Hstep | exact Hcount].
Defined.


Lemma Close_is_mutually_exclusive_witness :
  let s := Rabbit.afterEvents [Rabbit.EvCloseLock 1] in
  Rabbit.insideClose (Rabbit.closers s !! 1%nat) = true /\
  Rabbit.step s (Rabbit.EvCloseLock 2) = None.
Proof.
  intros s.
  assert (Hin : Rabbit.insideClose (Rabbit.closers s !! 1%nat) = true)
    by (vm_compute; reflexivity).
  split; [exact Hin |].
  destruct (Close_is_mutually_exclusive s (reachable_afterEvents _)) as (Hone & _).
  destruct (Hone 1%nat 1%nat Hin Hin) as (_ & _ & Hblocked).
  apply Hblocked. discriminate.
Defined.

Lemma error_reports_stay_with_their_pass_witness :
  let s := Rabbit.afterEvents (Rabbit.rebuiltWhenIdle ++ [Rabbit.EvReceive]) in
  exists s', Rabbit.step s (Rabbit.EvCallback 0 (Some "handler failed")) = Some s' /\
    Rabbit.Load 0 s' = true /\
    Rabbit.Load 1 s' = Rabbit.Load 1 s.
Proof.
  intros s.
  destruct (error_reports_stay_with_their_pass s (reachable_afterEvents _))
    as (Hstay & _).
  apply (Hstay Rabbit.secondGeneration 0%nat (Rabbit.orderEnvelope 1) "handler failed").
  - vm_compute; reflexivity.
  - vm_compute; reflexivity.
  - vm_compute; discriminate.
Defined.

Lemma closing_engine_runs_to_its_end_witness :
  let s := Rabbit.afterEvents Rabbit.closingWhileServing in
  Rabbit.pc s = Rabbit.Selecting Rabbit.firstGeneration /\
  exists evs s', Forall (fun e => Rabbit.isOwnStep e = true) evs /\
    Rabbit.run s (Rabbit.EvHeartbeat (1 * Rabbit.second) :: evs) = Some s' /\
    Rabbit.pc s' = Rabbit.Exited.
Proof.
  intros s.
  assert (Hpc : Rabbit.pc s = Rabbit.Selecting Rabbit.firstGeneration)
    by (vm_compute; reflexivity).
  split; [exact Hpc |].
  assert (Hset : Rabbit.isClosed s = true) by (vm_compute; reflexivity).
  assert (Hzero : Rabbit.itemsInProgress s = 0) by (vm_compute; reflexivity).
  destruct (closing_engine_runs_to_its_end s Hset Hzero) as (_ & Hselect).
  destruct (Hselect _ (1 * Rabbit.second) Hpc) as (evs & s' & Hown & Hrun & Hend & _).
  exists evs, s'. split; [exact Hown |]. split; [exact Hrun | exact Hend].
Defined.

Lemma application_drain_empties_the_count_witness :
  let s := Rabbit.afterEvents Rabbit.oneHeld in
  Rabbit.itemsInProgress s = 1 /\
  exists s', Rabbit.itemsInProgress s' = 0 /\ Rabbit.held s' = [] /\
    Rabbit.pc s' = Rabbit.pc s.
Proof.
  intros s. split; [vm_compute; reflexivity |].
  assert (Hidle : Rabbit.sending (Rabbit.pc s) = []) by (vm_compute; reflexivity).
  destruct (application_drain_empties_the_count s (reachable_afterEvents _) Hidle)
    as (s' & _ & Hzero & _ & Hheld & Hpc & _).
  exists s'. split; [exact Hzero |]. split; [exact Hheld | exact Hpc].
Defined.

Lemma pass_releases_its_own_channel_witness :
  let s := Rabbit.afterEvents (Rabbit.firstPass ++ [Rabbit.EvLoopEnter]) in
  Rabbit.pc s = Rabbit.Selecting Rabbit.firstGeneration /\
  exists chn, Rabbit.channel s = Some chn /\
    Rabbit.channelClose Rabbit.firstGeneration = Rabbit.ChannelNotify chn.
Proof.
  intros s.
  assert (Hpc : Rabbit.pc s = Rabbit.Selecting Rabbit.firstGeneration)
    by (vm_compute; reflexivity).
  split; [exact Hpc |].
  destruct (pass_releases_its_own_channel s _ (reachable_afterEvents _) Hpc)
    as (chn & Hchn & Hwatch & _).
  exists chn. split; [exact Hchn | exact Hwatch].
Defined.

Lemma shutdown_after_fault_releases_twice_witness :
  let s := Rabbit.afterEvents Rabbit.closingWhileServing in
  exists s',
    Rabbit.run s [Rabbit.EvDelivery None (1 * Rabbit.second); Rabbit.EvLoopExit;
                  Rabbit.EvEpilogue; Rabbit.EvEpilogue; Rabbit.EvEpilogue;
                  Rabbit.EvEpilogue] = Some s' /\
    Rabbit.pc s' = Rabbit.Exited /\
    Rabbit.trace s'
      = (Rabbit.trace s ++ [Rabbit.PoolCloseConsumerChannel (Rabbit.channel s);
                            Rabbit.PoolCloseConsumerChannel (Rabbit.channel s)])%list.
Proof.
  intros s.
  apply (shutdown_after_fault_releases_twice s Rabbit.firstGeneration).
  - vm_compute; reflexivity.
  - vm_compute; reflexivity.
  - vm_compute; reflexivity.
Defined.
